(** * The audio response pipeline of [src/app/page.tsx]

    A shallow embedding of the [Home] component's audio pipeline:
    [togglePlayback], [handleAudioResponse] (with its inner [cleanup] and
    [animate] closures and the three element listeners), together with the
    part of the browser the code talks to (media elements, Web Audio
    contexts and nodes, object URLs, animation frames, typed arrays).

    The component is single-threaded and event-driven.  Every synchronous
    stretch of code is a computation in a small state/exception/log monad;
    an [await] ends a stretch, and the continuation is resumed by a later
    step of the event loop ([step]). *)

From Stdlib Require Import String Lia.
From stdpp Require Import base list option.

Set Default Proof Using "Type".

(** ** Identifiers

    Browser objects are allocated in growing tables; an identifier is the
    index of the object in its table. *)

Abbreviation ElemId := nat (only parsing).
Abbreviation CtxId := nat (only parsing).
Abbreviation NodeId := nat (only parsing).
Abbreviation FrameId := nat (only parsing).
Abbreviation ArrId := nat (only parsing).
Abbreviation Url := nat (only parsing).
Abbreviation byte := Byte.byte (only parsing).

(** ** Payloads *)

(** A [Blob]: its declared content type and its body. *)
Record Blob := mkBlob {
  blob_type : string;
  blob_bytes : list byte
}.

(** What a caller can hand to [handleAudioResponse] at run time: a Blob
    object, or no object at all ([null] / [undefined]). *)
Inductive Payload :=
| Absent
| Present (b : Blob).

Definition octet_stream : string := "application/octet-stream"%string.

(** ** Browser objects *)

(** The three media-element events the component listens to. *)
Inductive Signal := SigPlay | SigPause | SigEnded.

Global Instance Signal_eq_dec : EqDecision Signal.
Proof. solve_decision. Defined.

(** An [HTMLAudioElement].  [el_src = None] is the empty string (no source);
    object URLs are never empty.  [el_events] is the element's queue of
    events that were fired but whose listeners have not run yet. *)
Record AudioElement := mkEl {
  el_src : option Url;
  el_currentTime : nat;
  el_paused : bool;
  el_listeners : list Signal;
  el_events : list Signal
}.

(** An [AudioContext] is running, has been asked to close (the promise of
    [close()] is pending), or is closed. *)
Inductive CtxState := Running | Closing | Closed.

Global Instance CtxState_eq_dec : EqDecision CtxState.
Proof. solve_decision. Defined.

Record Analyser := mkAnalyser {
  an_ctx : CtxId;
  an_fftSize : nat;
  an_to_destination : bool
}.

Record SourceNode := mkSource {
  sn_ctx : CtxId;
  sn_element : ElemId;
  sn_output : option NodeId
}.

(** An object URL minted by [URL.createObjectURL]; [url_live] falls to
    [false] when it is revoked. *)
Record ObjectURL := mkURL {
  url_blob : Blob;
  url_live : bool
}.

Record Browser := mkBrowser {
  elements : list AudioElement;
  contexts : list CtxState;
  analysers : list Analyser;
  sources : list SourceNode;
  urls : list ObjectURL;
  frames : list FrameId;          (* animation frames requested, not yet run *)
  next_frame : FrameId;           (* request ids are positive *)
  arrays : list (list byte)       (* the typed arrays allocated so far *)
}.

(** ** The component *)

(** Where an asynchronous [handleAudioResponse] call is suspended. *)
Inductive Await :=
| AwaitClose (b : Blob) (c : CtxId)   (* in [cleanup], at [await ....close()] *)
| AwaitPlay (e : ElemId).             (* at [await audio.play()] *)

(** React state ([audioData], [isPlaying]), the six refs, the browser, and
    the suspended call if there is one. *)
Record St := mkSt {
  audioData : option ArrId;
  isPlaying : bool;
  audioContextRef : option CtxId;
  analyserRef : option NodeId;
  audioSourceRef : option NodeId;
  animationFrameRef : option FrameId;
  audioRef : option ElemId;
  currentAudioUrlRef : option Url;
  browser : Browser;
  awaiting : option Await
}.

(** What the code asks of the browser, and what it publishes, in order. *)
Inductive Effect :=
| EPause (e : ElemId)
| EPlay (e : ElemId)
| EPlayRejected (e : ElemId)
| ESetCurrentTime (e : ElemId) (t : nat)
| ESetSrc (e : ElemId) (u : Url)
| EDisconnectSource (n : NodeId)
| EDisconnectAnalyser (n : NodeId)
| ECloseRequested (c : CtxId)
| ECloseResolved (c : CtxId)
| ECancelFrame (h : FrameId)
| ERequestFrame (h : FrameId)
| ERevokeURL (u : Url)
| ECreateURL (u : Url)
| ENewContext (c : CtxId)
| ECreateAnalyser (a : NodeId)
| ESetFftSize (a : NodeId) (n : nat)
| ENewAudio (e : ElemId)
| ECreateSource (n : NodeId)
| EConnect (n a : NodeId)
| EConnectDestination (a : NodeId)
| EListen (e : ElemId) (sig : Signal)
| ENewArray (arr : ArrId)
| ESample (a : NodeId) (arr : ArrId)
| ESetAudioData (d : option ArrId)
| ESetIsPlaying (b : bool)
| EConsoleError.

Global Instance Effect_eq_dec : EqDecision Effect.
Proof. solve_decision. Defined.

Inductive Exn := TypeError | InvalidStateError | NotAllowedError | AbortError.

(** ** Field updates *)

Definition upd_elements (f : list AudioElement → list AudioElement) (w : Browser) : Browser :=
  mkBrowser (f (elements w)) (contexts w) (analysers w) (sources w) (urls w)
            (frames w) (next_frame w) (arrays w).
Definition upd_contexts (f : list CtxState → list CtxState) (w : Browser) : Browser :=
  mkBrowser (elements w) (f (contexts w)) (analysers w) (sources w) (urls w)
            (frames w) (next_frame w) (arrays w).
Definition upd_analysers (f : list Analyser → list Analyser) (w : Browser) : Browser :=
  mkBrowser (elements w) (contexts w) (f (analysers w)) (sources w) (urls w)
            (frames w) (next_frame w) (arrays w).
Definition upd_sources (f : list SourceNode → list SourceNode) (w : Browser) : Browser :=
  mkBrowser (elements w) (contexts w) (analysers w) (f (sources w)) (urls w)
            (frames w) (next_frame w) (arrays w).
Definition upd_urls (f : list ObjectURL → list ObjectURL) (w : Browser) : Browser :=
  mkBrowser (elements w) (contexts w) (analysers w) (sources w) (f (urls w))
            (frames w) (next_frame w) (arrays w).
Definition upd_frames (f : list FrameId → list FrameId) (w : Browser) : Browser :=
  mkBrowser (elements w) (contexts w) (analysers w) (sources w) (urls w)
            (f (frames w)) (next_frame w) (arrays w).
Definition upd_next_frame (f : FrameId → FrameId) (w : Browser) : Browser :=
  mkBrowser (elements w) (contexts w) (analysers w) (sources w) (urls w)
            (frames w) (f (next_frame w)) (arrays w).
Definition upd_arrays (f : list (list byte) → list (list byte)) (w : Browser) : Browser :=
  mkBrowser (elements w) (contexts w) (analysers w) (sources w) (urls w)
            (frames w) (next_frame w) (f (arrays w)).

Definition set_audioData (v : option ArrId) (s : St) : St :=
  mkSt v (isPlaying s) (audioContextRef s) (analyserRef s) (audioSourceRef s)
       (animationFrameRef s) (audioRef s) (currentAudioUrlRef s) (browser s) (awaiting s).
Definition set_isPlaying (v : bool) (s : St) : St :=
  mkSt (audioData s) v (audioContextRef s) (analyserRef s) (audioSourceRef s)
       (animationFrameRef s) (audioRef s) (currentAudioUrlRef s) (browser s) (awaiting s).
Definition set_audioContextRef (v : option CtxId) (s : St) : St :=
  mkSt (audioData s) (isPlaying s) v (analyserRef s) (audioSourceRef s)
       (animationFrameRef s) (audioRef s) (currentAudioUrlRef s) (browser s) (awaiting s).
Definition set_analyserRef (v : option NodeId) (s : St) : St :=
  mkSt (audioData s) (isPlaying s) (audioContextRef s) v (audioSourceRef s)
       (animationFrameRef s) (audioRef s) (currentAudioUrlRef s) (browser s) (awaiting s).
Definition set_audioSourceRef (v : option NodeId) (s : St) : St :=
  mkSt (audioData s) (isPlaying s) (audioContextRef s) (analyserRef s) v
       (animationFrameRef s) (audioRef s) (currentAudioUrlRef s) (browser s) (awaiting s).
Definition set_animationFrameRef (v : option FrameId) (s : St) : St :=
  mkSt (audioData s) (isPlaying s) (audioContextRef s) (analyserRef s) (audioSourceRef s)
       v (audioRef s) (currentAudioUrlRef s) (browser s) (awaiting s).
Definition set_audioRef (v : option ElemId) (s : St) : St :=
  mkSt (audioData s) (isPlaying s) (audioContextRef s) (analyserRef s) (audioSourceRef s)
       (animationFrameRef s) v (currentAudioUrlRef s) (browser s) (awaiting s).
Definition set_currentAudioUrlRef (v : option Url) (s : St) : St :=
  mkSt (audioData s) (isPlaying s) (audioContextRef s) (analyserRef s) (audioSourceRef s)
       (animationFrameRef s) (audioRef s) v (browser s) (awaiting s).
Definition upd_browser (f : Browser → Browser) (s : St) : St :=
  mkSt (audioData s) (isPlaying s) (audioContextRef s) (analyserRef s) (audioSourceRef s)
       (animationFrameRef s) (audioRef s) (currentAudioUrlRef s) (f (browser s)) (awaiting s).
Definition set_awaiting (v : option Await) (s : St) : St :=
  mkSt (audioData s) (isPlaying s) (audioContextRef s) (analyserRef s) (audioSourceRef s)
       (animationFrameRef s) (audioRef s) (currentAudioUrlRef s) (browser s) v.

(** ** The monad of a synchronous stretch of code

    A computation reads and writes the state, may throw, and emits the
    effects it performs.  A thrown exception keeps the state and the
    effects reached so far. *)

Inductive Res (A : Type) :=
| Ret (a : A)
| Raise (e : Exn).
Arguments Ret {A} a.
Arguments Raise {A} e.

Definition M (A : Type) : Type := St → Res A * St * list Effect.

Definition ret {A} (a : A) : M A := λ s, (Ret a, s, []).

Definition bind {A B} (m : M A) (k : A → M B) : M B := λ s,
  match m s with
  | (Ret a, s1, l1) =>
      match k a s1 with
      | (r, s2, l2) => (r, s2, l1 ++ l2)
      end
  | (Raise e, s1, l1) => (Raise e, s1, l1)
  end.

Definition throw {A} (e : Exn) : M A := λ s, (Raise e, s, []).

Definition try_catch {A} (m : M A) (h : Exn → M A) : M A := λ s,
  match m s with
  | (Ret a, s1, l1) => (Ret a, s1, l1)
  | (Raise e, s1, l1) =>
      match h e s1 with
      | (r, s2, l2) => (r, s2, l1 ++ l2)
      end
  end.

Definition gets {A} (f : St → A) : M A := λ s, (Ret (f s), s, []).
Definition modify (f : St → St) : M unit := λ s, (Ret tt, f s, []).
Definition emit (e : Effect) : M unit := λ s, (Ret tt, s, [e]).

Notation "'let*' x := m 'in' k" := (bind m (λ x, k))
  (at level 10, x name, m at level 100, k at level 200).
Notation "m ;; k" := (bind m (λ _, k))
  (at level 100, right associativity).

(** The final state and the effects of a computation. *)
Definition state_of {A} (r : Res A * St * list Effect) : St := snd (fst r).
Definition log_of {A} (r : Res A * St * list Effect) : list Effect := snd r.
Definition res_of {A} (r : Res A * St * list Effect) : Res A := fst (fst r).

(** ** The browser interface

    Each primitive is the browser's reaction to one call of the code. *)

(** [element.pause()]: a no-op on a paused element; otherwise the element
    becomes paused and a "pause" event is queued. *)
Definition pause_element (el : AudioElement) : AudioElement :=
  if el_paused el then el
  else mkEl (el_src el) (el_currentTime el) true (el_listeners el)
            (el_events el ++ [SigPause]).

Definition el_pause (e : ElemId) : M unit :=
  modify (upd_browser (upd_elements (alter pause_element e)));;
  emit (EPause e).

(** [element.play()] when the browser lets the element play: a paused
    element leaves the paused state and a "play" event is queued; an
    element that is not paused stays as it is. *)
Definition play_element (el : AudioElement) : AudioElement :=
  if el_paused el
  then mkEl (el_src el) (el_currentTime el) false (el_listeners el)
            (el_events el ++ [SigPlay])
  else el.

(** [element.play()]: [allowed] is the browser's answer.  A refused request
    rejects the promise (here: throws into the caller's handler) and leaves
    the element untouched. *)
Definition el_play (e : ElemId) (allowed : bool) : M unit :=
  if allowed
  then modify (upd_browser (upd_elements (alter play_element e)));; emit (EPlay e)
  else emit (EPlayRejected e);; throw NotAllowedError.

Definition el_get_src (e : ElemId) : M (option Url) :=
  gets (λ s, elements (browser s) !! e ≫= el_src).

Definition el_set_src (e : ElemId) (u : Url) : M unit :=
  modify (upd_browser (upd_elements (alter (λ el,
    mkEl (Some u) (el_currentTime el) (el_paused el) (el_listeners el) (el_events el)) e)));;
  emit (ESetSrc e u).

Definition el_set_currentTime (e : ElemId) (t : nat) : M unit :=
  modify (upd_browser (upd_elements (alter (λ el,
    mkEl (el_src el) t (el_paused el) (el_listeners el) (el_events el)) e)));;
  emit (ESetCurrentTime e t).

Definition el_addEventListener (e : ElemId) (sig : Signal) : M unit :=
  modify (upd_browser (upd_elements (alter (λ el,
    mkEl (el_src el) (el_currentTime el) (el_paused el) (el_listeners el ++ [sig])
         (el_events el)) e)));;
  emit (EListen e sig).

(** [new Audio()]: a paused element with no source and no listeners. *)
Definition new_Audio : M ElemId :=
  let* e := gets (λ s, length (elements (browser s))) in
  modify (upd_browser (upd_elements (λ els, els ++ [mkEl None 0 true [] []])));;
  emit (ENewAudio e);;
  ret e.

(** [URL.createObjectURL(blob)] and [URL.revokeObjectURL(url)]. *)
Definition createObjectURL (b : Blob) : M Url :=
  let* u := gets (λ s, length (urls (browser s))) in
  modify (upd_browser (upd_urls (λ us, us ++ [mkURL b true])));;
  emit (ECreateURL u);;
  ret u.

Definition revokeObjectURL (u : Url) : M unit :=
  modify (upd_browser (upd_urls (alter (λ o, mkURL (url_blob o) false) u)));;
  emit (ERevokeURL u).

(** [new AudioContext()]. *)
Definition new_AudioContext : M CtxId :=
  let* c := gets (λ s, length (contexts (browser s))) in
  modify (upd_browser (upd_contexts (λ cs, cs ++ [Running])));;
  emit (ENewContext c);;
  ret c.

(** [context.close()]: a running context starts closing and the returned
    promise is pending; on a context that is already closing or closed the
    promise is rejected. *)
Definition ctx_close (c : CtxId) : M unit :=
  let* st := gets (λ s, contexts (browser s) !! c) in
  match st with
  | Some Running =>
      modify (upd_browser (upd_contexts (<[c := Closing]>)));;
      emit (ECloseRequested c)
  | _ => throw InvalidStateError
  end.

(** The pending promise of [close()] resolves: the context is closed. *)
Definition ctx_closed (c : CtxId) : M unit :=
  modify (upd_browser (upd_contexts (<[c := Closed]>)));;
  emit (ECloseResolved c).

(** [context.createAnalyser()]: [fftSize] defaults to 2048. *)
Definition createAnalyser (c : CtxId) : M NodeId :=
  let* a := gets (λ s, length (analysers (browser s))) in
  modify (upd_browser (upd_analysers (λ ans, ans ++ [mkAnalyser c 2048 false])));;
  emit (ECreateAnalyser a);;
  ret a.

Definition an_set_fftSize (a : NodeId) (n : nat) : M unit :=
  modify (upd_browser (upd_analysers (alter (λ an,
    mkAnalyser (an_ctx an) n (an_to_destination an)) a)));;
  emit (ESetFftSize a n).

(** [analyser.frequencyBinCount] is half the transform size. *)
Definition frequencyBinCount (w : Browser) (a : NodeId) : nat :=
  match analysers w !! a with
  | Some an => an_fftSize an / 2
  | None => 0
  end.

Definition an_connect_destination (a : NodeId) : M unit :=
  modify (upd_browser (upd_analysers (alter (λ an,
    mkAnalyser (an_ctx an) (an_fftSize an) true) a)));;
  emit (EConnectDestination a).

Definition an_disconnect (a : NodeId) : M unit :=
  modify (upd_browser (upd_analysers (alter (λ an,
    mkAnalyser (an_ctx an) (an_fftSize an) false) a)));;
  emit (EDisconnectAnalyser a).

(** [context.createMediaElementSource(audio)]. *)
Definition createMediaElementSource (c : CtxId) (e : ElemId) : M NodeId :=
  let* n := gets (λ s, length (sources (browser s))) in
  modify (upd_browser (upd_sources (λ ss, ss ++ [mkSource c e None])));;
  emit (ECreateSource n);;
  ret n.

Definition sn_connect (n a : NodeId) : M unit :=
  modify (upd_browser (upd_sources (alter (λ sn,
    mkSource (sn_ctx sn) (sn_element sn) (Some a)) n)));;
  emit (EConnect n a).

Definition sn_disconnect (n : NodeId) : M unit :=
  modify (upd_browser (upd_sources (alter (λ sn,
    mkSource (sn_ctx sn) (sn_element sn) None) n)));;
  emit (EDisconnectSource n).

(** [requestAnimationFrame(animate)]: every callback the component ever
    registers is [animate], which closes over the refs only, so a pending
    frame is its request id. *)
Definition requestAnimationFrame : M FrameId :=
  let* h := gets (λ s, next_frame (browser s)) in
  modify (upd_browser (λ w, upd_next_frame S (upd_frames (λ fs, fs ++ [h]) w)));;
  emit (ERequestFrame h);;
  ret h.

Definition cancelAnimationFrame (h : FrameId) : M unit :=
  modify (upd_browser (upd_frames (filter (λ h', h' ≠ h))));;
  emit (ECancelFrame h).

(** [new Uint8Array(n)] (zero-filled) and [new Uint8Array(arrayBuffer)]. *)
Definition new_Uint8Array (bytes : list byte) : M ArrId :=
  let* arr := gets (λ s, length (arrays (browser s))) in
  modify (upd_browser (upd_arrays (λ hs, hs ++ [bytes])));;
  emit (ENewArray arr);;
  ret arr.

(** [analyser.getByteFrequencyData(array)] overwrites the array in place
    with the magnitudes [data] the analyser holds at that moment; the
    array keeps its length. *)
Definition overwrite (data old : list byte) : list byte :=
  take (length old) data ++ drop (length data) old.

Definition getByteFrequencyData (a : NodeId) (arr : ArrId) (data : list byte) : M unit :=
  modify (upd_browser (upd_arrays (alter (overwrite data) arr)));;
  emit (ESample a arr).

Definition console_error : M unit := emit EConsoleError.

(** React setters. *)
Definition setAudioData (d : option ArrId) : M unit :=
  modify (set_audioData d);; emit (ESetAudioData d).

Definition setIsPlaying (b : bool) : M unit :=
  modify (set_isPlaying b);; emit (ESetIsPlaying b).

(** ** The component's code *)

(** The handler of a refused play request in [togglePlayback]:
    [.catch((error) => console.error(...))]. *)
Definition play_logged (e : ElemId) (allowed : bool) : M unit :=
  try_catch (el_play e allowed) (λ _, console_error).

(** [togglePlayback] (page.tsx, lines 54-74).  [isPlaying] is the value of
    the latest render. *)
Definition togglePlayback (allowed : bool) : M unit :=
  let* cur := gets audioRef in
  match cur with
  | None => ret tt
  | Some e =>
      let* playing := gets isPlaying in
      if playing then el_pause e
      else
        let* src := el_get_src e in
        match src with
        | Some _ =>
            el_set_currentTime e 0;;
            play_logged e allowed
        | None =>
            let* url := gets currentAudioUrlRef in
            match url with
            | Some u =>
                el_set_src e u;;
                play_logged e allowed
            | None => ret tt
            end
        end
  end.

(** [if (animationFrameRef.current) { cancelAnimationFrame(...);
    animationFrameRef.current = null; }], as it stands in [cleanup] and in
    the "pause" and "ended" listeners.  The test is JavaScript truthiness:
    [null] and [0] do not pass. *)
Definition cancel_pending_frame : M unit :=
  let* r := gets animationFrameRef in
  match r with
  | Some (S h) =>
      cancelAnimationFrame (S h);;
      modify (set_animationFrameRef None)
  | _ => ret tt
  end.

(** [animate] (lines 146-153); [data] is what the analyser holds when
    [getByteFrequencyData] reads it. *)
Definition animate (data : list byte) : M unit :=
  let* an := gets analyserRef in
  match an with
  | None => ret tt
  | Some a =>
      let* n := gets (λ s, frequencyBinCount (browser s) a) in
      let* dataArray := new_Uint8Array (replicate n Byte.x00) in
      getByteFrequencyData a dataArray data;;
      setAudioData (Some dataArray);;
      let* h := requestAnimationFrame in
      modify (set_animationFrameRef (Some h))
  end.

(** The three listeners (lines 156-179). *)
Definition on_play (data : list byte) : M unit :=
  setIsPlaying true;;
  animate data.

Definition on_pause : M unit :=
  setIsPlaying false;;
  cancel_pending_frame;;
  setAudioData None.

Definition on_ended : M unit :=
  cancel_pending_frame;;
  setIsPlaying false;;
  setAudioData None.

Definition listener (sig : Signal) (data : list byte) : M unit :=
  match sig with
  | SigPlay => on_play data
  | SigPause => on_pause
  | SigEnded => on_ended
  end.

(** [cleanup] (lines 91-116) up to [await audioContextRef.current.close()].
    The result is the context whose closing is awaited, if there is one. *)
Definition cleanup_until_close : M (option CtxId) :=
  let* cur := gets audioRef in
  match cur with
  | Some e => el_pause e
  | None => ret tt
  end;;
  let* src := gets audioSourceRef in
  match src with
  | Some n => sn_disconnect n;; modify (set_audioSourceRef None)
  | None => ret tt
  end;;
  let* an := gets analyserRef in
  match an with
  | Some a => an_disconnect a;; modify (set_analyserRef None)
  | None => ret tt
  end;;
  let* ctx := gets audioContextRef in
  match ctx with
  | Some c => ctx_close c;; ret (Some c)
  | None => ret None
  end.

(** [cleanup] from the point where the awaited [close()] has resolved (or
    from the test of [audioContextRef.current] when it was [null]). *)
Definition cleanup_after_close (closed : option CtxId) : M unit :=
  match closed with
  | Some _ => modify (set_audioContextRef None)
  | None => ret tt
  end;;
  cancel_pending_frame;;
  setAudioData None;;
  setIsPlaying false.

(** [cleanup] run in one go: the [close()] promise resolves with nothing
    else happening in between. *)
Definition cleanup : M unit :=
  let* closed := cleanup_until_close in
  match closed with
  | Some c => ctx_closed c
  | None => ret tt
  end;;
  cleanup_after_close closed.

(** The [catch] block of [handleAudioResponse] (lines 184-190). *)
Definition play_failed : M unit :=
  console_error;;
  setIsPlaying false;;
  setAudioData None.

(** [handleAudioResponse] after [await cleanup()] (lines 120-190): revoke
    the previous URL, build the new graph, register the listeners, start
    playback.  When the play request is accepted the call stays suspended
    on the promise of [play()]. *)
Definition build_graph (b : Blob) (allowed : bool) : M unit :=
  let* old := gets currentAudioUrlRef in
  match old with
  | Some u => revokeObjectURL u
  | None => ret tt
  end;;
  let* c := new_AudioContext in
  modify (set_audioContextRef (Some c));;
  let* a := createAnalyser c in
  modify (set_analyserRef (Some a));;
  an_set_fftSize a 256;;
  let* audio := new_Audio in
  let* audioUrl := createObjectURL b in
  el_set_src audio audioUrl;;
  modify (set_currentAudioUrlRef (Some audioUrl));;
  modify (set_audioRef (Some audio));;
  let* n := createMediaElementSource c audio in
  modify (set_audioSourceRef (Some n));;
  sn_connect n a;;
  an_connect_destination a;;
  el_addEventListener audio SigPlay;;
  el_addEventListener audio SigPause;;
  el_addEventListener audio SigEnded;;
  try_catch
    (el_play audio allowed;;
     modify (set_awaiting (Some (AwaitPlay audio))))
    (λ _, play_failed).

(** Reading a property of the argument: [null] and [undefined] throw. *)
Definition deref (p : Payload) : M Blob :=
  match p with
  | Present b => ret b
  | Absent => throw TypeError
  end.

(** JavaScript truthiness of the argument: every object is truthy, also a
    Blob of size zero. *)
Definition truthy (p : Payload) : bool :=
  match p with
  | Present _ => true
  | Absent => false
  end.

(** [handleAudioResponse] (lines 76-191) from the call to its first
    suspension that lets other tasks run. *)
Definition handleAudioResponse (p : Payload) (allowed : bool) : M unit :=
  let* blob := deref p in
  if String.eqb (blob_type blob) octet_stream then
    let* uint8Array := new_Uint8Array (blob_bytes blob) in
    setAudioData (Some uint8Array);;
    setIsPlaying true
  else
    if negb (truthy p) then ret tt
    else
      let* closed := cleanup_until_close in
      match closed with
      | Some c => modify (set_awaiting (Some (AwaitClose blob c)))
      | None =>
          cleanup_after_close None;;
          build_graph blob allowed
      end.

(** The continuation of a call suspended in [cleanup]. *)
Definition resume_after_close (b : Blob) (c : CtxId) (allowed : bool) : M unit :=
  modify (set_awaiting None);;
  ctx_closed c;;
  cleanup_after_close (Some c);;
  build_graph b allowed.

(** The continuation of a call suspended on [play()]: nothing follows a
    fulfilled promise; a rejected one enters the [catch] block. *)
Definition resume_after_play (ok : bool) : M unit :=
  modify (set_awaiting None);;
  if ok then ret tt else play_failed.

(** ** The event loop *)

Inductive Action :=
| Submit (p : Payload) (allowed : bool)     (* a call of handleAudioResponse *)
| CloseResolved (allowed : bool)            (* the awaited close() resolves *)
| PlaySettled (ok : bool)                   (* the awaited play() settles *)
| Toggle (allowed : bool)                   (* a call of togglePlayback *)
| Deliver (e : ElemId) (data : list byte)   (* the next queued event of e *)
| PlaybackEnds (e : ElemId) (pos : nat)     (* e reaches the end of its clip *)
| Tick (h : FrameId) (data : list byte).    (* animation frame h runs *)

Definition exec {A} (m : M A) (s : St) : St * list Effect :=
  (state_of (m s), log_of (m s)).

(** The browser takes the first queued event of element [e]. *)
Definition pop_event (e : ElemId) (s : St) : option (Signal * bool * St) :=
  match elements (browser s) !! e with
  | Some el =>
      match el_events el with
      | sig :: rest =>
          Some (sig, bool_decide (sig ∈ el_listeners el),
                upd_browser (upd_elements (<[e :=
                  mkEl (el_src el) (el_currentTime el) (el_paused el)
                       (el_listeners el) rest]>)) s)
      | [] => None
      end
  | None => None
  end.

(** Playback of [e] reaches the end of the clip at position [pos]: the
    element becomes paused, and "pause" then "ended" are fired. *)
Definition end_playback (e : ElemId) (pos : nat) (s : St) : option St :=
  match elements (browser s) !! e with
  | Some el =>
      if el_paused el then None
      else Some (upd_browser (upd_elements (<[e :=
                   mkEl (el_src el) pos true (el_listeners el)
                        (el_events el ++ [SigPause; SigEnded])]>)) s)
  | None => None
  end.

(** One task of the event loop; [None] when the task cannot occur in the
    state.  Calls of [handleAudioResponse] are sequential: a new one starts
    only when the previous one has settled. *)
Definition step (a : Action) (s : St) : option (St * list Effect) :=
  match a with
  | Submit p allowed =>
      match awaiting s with
      | None => Some (exec (handleAudioResponse p allowed) s)
      | Some _ => None
      end
  | CloseResolved allowed =>
      match awaiting s with
      | Some (AwaitClose b c) => Some (exec (resume_after_close b c allowed) s)
      | _ => None
      end
  | PlaySettled ok =>
      match awaiting s with
      | Some (AwaitPlay _) => Some (exec (resume_after_play ok) s)
      | _ => None
      end
  | Toggle allowed => Some (exec (togglePlayback allowed) s)
  | Deliver e data =>
      match pop_event e s with
      | Some (sig, true, s1) => Some (exec (listener sig data) s1)
      | Some (_, false, s1) => Some (s1, [])
      | None => None
      end
  | PlaybackEnds e pos =>
      match end_playback e pos s with
      | Some s1 => Some (s1, [])
      | None => None
      end
  | Tick h data =>
      if bool_decide (h ∈ frames (browser s))
      then Some (exec (animate data)
                   (upd_browser (upd_frames (filter (λ h', h' ≠ h))) s))
      else None
  end.

(** A run of the event loop, with the effects of all its tasks. *)
Fixpoint run (acts : list Action) (s : St) : option (St * list Effect) :=
  match acts with
  | [] => Some (s, [])
  | a :: rest =>
      match step a s with
      | Some (s1, l1) =>
          match run rest s1 with
          | Some (s2, l2) => Some (s2, l1 ++ l2)
          | None => None
          end
      | None => None
      end
  end.

(** The component as mounted: nothing loaded, nothing playing. *)
Definition init : St :=
  mkSt None false None None None None None None
       (mkBrowser [] [] [] [] [] [] 1 []) None.

(** * Vocabulary of the properties *)

(** [currentTime = 0] on an element. *)
Definition rewind (el : AudioElement) : AudioElement :=
  mkEl (el_src el) 0 (el_paused el) (el_listeners el) (el_events el).

(** [src = u] on an element. *)
Definition rebind (u : Url) (el : AudioElement) : AudioElement :=
  mkEl (Some u) (el_currentTime el) (el_paused el) (el_listeners el) (el_events el).

(** The effects of a play request: a refused request is caught and logged. *)
Definition play_request (e : ElemId) (allowed : bool) : list Effect :=
  if allowed then [EPlay e] else [EPlayRejected e; EConsoleError].

(** The state with element [e] changed by [f]. *)
Definition on_element (e : ElemId) (f : AudioElement → AudioElement) (s : St) : St :=
  upd_browser (upd_elements (alter f e)) s.

(** The state after a play request on [e]. *)
Definition play_requested (e : ElemId) (allowed : bool) (s : St) : St :=
  if allowed then on_element e play_element s else s.

(** The source bound to element [e], if the element exists and has one. *)
Definition bound_source (s : St) (e : ElemId) : option Url :=
  elements (browser s) !! e ≫= el_src.

(** The published snapshot as a value: the content of the array that
    [audioData] refers to. *)
Definition snapshot (s : St) : option (list byte) :=
  audioData s ≫= λ arr, arrays (browser s) !! arr.

(** ** Each stretch of code in closed form *)

(** [cancel_pending_frame]. *)
Definition cancelled (s : St) : St :=
  match animationFrameRef s with
  | Some (S h) =>
      set_animationFrameRef None (upd_browser (upd_frames (filter (λ h', h' ≠ S h))) s)
  | _ => s
  end.

Definition cancel_log (s : St) : list Effect :=
  match animationFrameRef s with
  | Some (S h) => [ECancelFrame (S h)]
  | _ => []
  end.

(** [animate] with analyser [a] attached. *)
Definition sampled (a : NodeId) (data : list byte) (s : St) : St :=
  let w := browser s in
  let arr := length (arrays w) in
  let h := next_frame w in
  set_animationFrameRef (Some h)
    (upd_browser (λ w, upd_next_frame S (upd_frames (λ fs, fs ++ [h]) w))
       (set_audioData (Some arr)
          (upd_browser (upd_arrays (λ hs, hs ++
             [overwrite data (replicate (frequencyBinCount w a) Byte.x00)])) s))).

Definition sample_log (a : NodeId) (s : St) : list Effect :=
  let arr := length (arrays (browser s)) in
  [ENewArray arr; ESample a arr; ESetAudioData (Some arr);
   ERequestFrame (next_frame (browser s))].

(** [cleanup] up to the call of [close()]. *)
Definition detached (s : St) : St :=
  let s1 := match audioRef s with
            | Some e => on_element e pause_element s
            | None => s
            end in
  let s2 := match audioSourceRef s1 with
            | Some n =>
                set_audioSourceRef None
                  (upd_browser (upd_sources (alter (λ sn,
                     mkSource (sn_ctx sn) (sn_element sn) None) n)) s1)
            | None => s1
            end in
  match analyserRef s2 with
  | Some a =>
      set_analyserRef None
        (upd_browser (upd_analysers (alter (λ an,
           mkAnalyser (an_ctx an) (an_fftSize an) false) a)) s2)
  | None => s2
  end.

Definition detach_log (s : St) : list Effect :=
  match audioRef s with Some e => [EPause e] | None => [] end ++
  match audioSourceRef s with Some n => [EDisconnectSource n] | None => [] end ++
  match analyserRef s with Some a => [EDisconnectAnalyser a] | None => [] end.

Definition close_requested (c : CtxId) (s : St) : St :=
  upd_browser (upd_contexts (<[c := Closing]>)) s.

Definition close_resolved (c : CtxId) (s : St) : St :=
  upd_browser (upd_contexts (<[c := Closed]>)) s.

(** [cleanup] after the awaited [close()]. *)
Definition released (closed : option CtxId) (s : St) : St :=
  set_isPlaying false (set_audioData None (cancelled
    match closed with
    | Some _ => set_audioContextRef None s
    | None => s
    end)).

Definition release_log (s : St) : list Effect :=
  cancel_log s ++ [ESetAudioData None; ESetIsPlaying false].

(** [build_graph]: the previous URL revoked, the new graph in place, the
    play request made. *)
Definition revoked (s : St) : St :=
  match currentAudioUrlRef s with
  | Some u => upd_browser (upd_urls (alter (λ o, mkURL (url_blob o) false) u)) s
  | None => s
  end.

Definition revoke_log (s : St) : list Effect :=
  match currentAudioUrlRef s with
  | Some u => [ERevokeURL u]
  | None => []
  end.

Definition constructed (b : Blob) (s : St) : St :=
  let w := browser s in
  let c := length (contexts w) in
  let a := length (analysers w) in
  let e := length (elements w) in
  let u := length (urls w) in
  let n := length (sources w) in
  mkSt (audioData s) (isPlaying s) (Some c) (Some a) (Some n)
       (animationFrameRef s) (Some e) (Some u)
       (mkBrowser
          (elements w ++ [mkEl (Some u) 0 true [SigPlay; SigPause; SigEnded] []])
          (contexts w ++ [Running])
          (analysers w ++ [mkAnalyser c 256 true])
          (sources w ++ [mkSource c e (Some a)])
          (urls w ++ [mkURL b true])
          (frames w) (next_frame w) (arrays w))
       (awaiting s).

Definition construct_log (s : St) : list Effect :=
  let w := browser s in
  let c := length (contexts w) in
  let a := length (analysers w) in
  let e := length (elements w) in
  let u := length (urls w) in
  let n := length (sources w) in
  [ENewContext c; ECreateAnalyser a; ESetFftSize a 256; ENewAudio e;
   ECreateURL u; ESetSrc e u; ECreateSource n; EConnect n a;
   EConnectDestination a; EListen e SigPlay; EListen e SigPause;
   EListen e SigEnded].

Definition started (e : ElemId) (allowed : bool) (s : St) : St :=
  if allowed
  then set_awaiting (Some (AwaitPlay e)) (on_element e play_element s)
  else set_audioData None (set_isPlaying false s).

Definition start_log (e : ElemId) (allowed : bool) : list Effect :=
  if allowed then [EPlay e]
  else [EPlayRejected e; EConsoleError; ESetIsPlaying false; ESetAudioData None].

(** The state in which [build_graph] leaves [s], and its effects. *)
Definition rebuilt (b : Blob) (allowed : bool) (s : St) : St :=
  started (length (elements (browser s))) allowed (constructed b (revoked s)).

Definition rebuild_log (allowed : bool) (s : St) : list Effect :=
  revoke_log s ++ construct_log s ++
  start_log (length (elements (browser s))) allowed.

(** ** Graph resources *)

(** Everything the playback graph and the clip handle consist of: the five
    refs to them and the browser objects behind them.  ([audioData],
    [isPlaying], the pending frames and the typed arrays are not part of
    it.) *)
Definition graph_resources (s : St) :=
  (audioContextRef s, analyserRef s, audioSourceRef s, audioRef s,
   currentAudioUrlRef s,
   (elements (browser s), contexts (browser s), analysers (browser s),
    sources (browser s), urls (browser s))).

(** A payload that is missing or has no bytes. *)
Definition empty_or_absent (p : Payload) : Prop :=
  match p with
  | Absent => True
  | Present b => blob_bytes b = []
  end.

(** What a call whose play request was refused leaves behind: nothing
    thrown, not playing, no snapshot, and the graph of clip [b] in place
    with its context running, its URL live and bound to the element, so
    that [togglePlayback] rewinds that element and requests play. *)
Definition kept_for_manual_play (b : Blob) (r : Res unit * St * list Effect) : Prop :=
  let s' := state_of r in
  res_of r = Ret tt ∧
  isPlaying s' = false ∧ audioData s' = None ∧ snapshot s' = None ∧
  ∃ c a n e u,
    audioContextRef s' = Some c ∧ analyserRef s' = Some a ∧
    audioSourceRef s' = Some n ∧ audioRef s' = Some e ∧
    currentAudioUrlRef s' = Some u ∧
    contexts (browser s') !! c = Some Running ∧
    analysers (browser s') !! a = Some (mkAnalyser c 256 true) ∧
    sources (browser s') !! n = Some (mkSource c e (Some a)) ∧
    urls (browser s') !! u = Some (mkURL b true) ∧
    bound_source s' e = Some u ∧
    ∀ allowed,
      togglePlayback allowed s' =
        (Ret tt, play_requested e allowed (on_element e rewind s'),
         ESetCurrentTime e 0 :: play_request e allowed).

(** ** Releases *)

(** The effects that release a resource of the graph: the two
    disconnections, the closing of the context, the cancellation of the
    pending frame. *)
Definition is_release (e : Effect) : bool :=
  match e with
  | EDisconnectSource _ | EDisconnectAnalyser _
  | ECloseRequested _ | ECancelFrame _ => true
  | _ => false
  end.

Definition releases (l : list Effect) : list Effect := List.filter is_release l.

(** The context the component refers to, if any, is still running: nobody
    closed it behind the ref. *)
Definition context_open (s : St) : Prop :=
  ∀ c, audioContextRef s = Some c → contexts (browser s) !! c = Some Running.

(** ** The sampling loop *)

(** Every pending frame is the one recorded in [animationFrameRef]. *)
Definition frames_tracked (s : St) : Prop :=
  ∀ h, h ∈ frames (browser s) → animationFrameRef s = Some h ∧ h ≠ 0.



(** ** Reachable states *)

(** The clips a run has accepted: the payloads that reach the graph
    manager, in the order of their calls. *)
Definition accepted_clip (a : Action) : list Blob :=
  match a with
  | Submit (Present b) _ =>
      if String.eqb (blob_type b) octet_stream then [] else [b]
  | _ => []
  end.

Fixpoint accepted (acts : list Action) : list Blob :=
  match acts with
  | [] => []
  | a :: rest => accepted_clip a ++ accepted rest
  end.

(** The part of a state that the graph manager owns. *)
Record View := mkView {
  v_context : option CtxId;
  v_analyser : option NodeId;
  v_source : option NodeId;
  v_element : option ElemId;
  v_url : option Url;
  v_bound : list (option Url);      (* the source of each element *)
  v_contexts : list CtxState;
  v_analysers : list Analyser;
  v_sources : list SourceNode;
  v_urls : list ObjectURL
}.

Definition graph_view (s : St) : View :=
  mkView (audioContextRef s) (analyserRef s) (audioSourceRef s) (audioRef s)
         (currentAudioUrlRef s)
         (el_src <$> elements (browser s))
         (contexts (browser s)) (analysers (browser s)) (sources (browser s))
         (urls (browser s)).

(** The graph of the [i]-th clip once torn down, and while it is live. *)
Definition dead_analyser (i : nat) : Analyser := mkAnalyser i 256 false.
Definition live_analyser (i : nat) : Analyser := mkAnalyser i 256 true.
Definition dead_source (i : nat) : SourceNode := mkSource i i None.
Definition live_source (i : nat) : SourceNode := mkSource i i (Some i).
Definition revoked_url (b : Blob) : ObjectURL := mkURL b false.

(** Where the graph manager stands: no clip yet; the graph of clip [j]
    live; or the graph of clip [j] torn down, its context closing, and
    clip [b] waiting for it. *)
Inductive Phase :=
| PIdle
| PLoaded (j : nat)
| PClosing (j : nat) (b : Blob).

Definition shaped (ph : Phase) (clips : list Blob) (v : View) (aw : option Await) : Prop :=
  match ph with
  | PIdle =>
      clips = [] ∧ aw = None ∧
      v = mkView None None None None None [] [] [] [] []
  | PLoaded j =>
      ∃ old bj,
        clips = old ++ [bj] ∧ length old = j ∧
        (aw = None ∨ aw = Some (AwaitPlay j)) ∧
        v = mkView (Some j) (Some j) (Some j) (Some j) (Some j)
              (Some <$> seq 0 (S j))
              (replicate j Closed ++ [Running])
              ((dead_analyser <$> seq 0 j) ++ [live_analyser j])
              ((dead_source <$> seq 0 j) ++ [live_source j])
              ((revoked_url <$> old) ++ [mkURL bj true])
  | PClosing j b =>
      ∃ old bj,
        clips = old ++ [bj; b] ∧ length old = j ∧
        aw = Some (AwaitClose b j) ∧
        v = mkView (Some j) None None (Some j) (Some j)
              (Some <$> seq 0 (S j))
              (replicate j Closed ++ [Closing])
              (dead_analyser <$> seq 0 (S j))
              (dead_source <$> seq 0 (S j))
              ((revoked_url <$> old) ++ [mkURL bj true])
  end.

(** The invariant of the event loop, for a run that accepted [clips]. *)
Definition Inv (clips : list Blob) (s : St) : Prop :=
  ∃ ph, shaped ph clips (graph_view s) (awaiting s).

(** How many contexts run, how many object URLs are live, how many source
    nodes are connected. *)
Definition live_contexts (s : St) : nat :=
  length (filter (λ c, c = Running) (contexts (browser s))).

Definition live_urls (s : St) : nat :=
  length (filter (λ o, url_live o = true) (urls (browser s))).

Definition connected_sources (s : St) : nat :=
  length (filter (λ sn, is_Some (sn_output sn)) (sources (browser s))).

(** ** The order of a call *)

(** What a call asks of the browser before it suspends on [close()], when
    the graph of clip [j] is live. *)
Definition teardown_requests (j : nat) : list Effect :=
  [EPause j; EDisconnectSource j; EDisconnectAnalyser j; ECloseRequested j].

(** The construction of the graph of clip [j]. *)
Definition build_effects (j : nat) : list Effect :=
  [ENewContext j; ECreateAnalyser j; ESetFftSize j 256; ENewAudio j;
   ECreateURL j; ESetSrc j j; ECreateSource j; EConnect j j;
   EConnectDestination j; EListen j SigPlay; EListen j SigPause;
   EListen j SigEnded].

(** What a state with the graph of clip [j] live, and only that one, looks
    like; [b] is the clip. *)
Definition exclusive_graph (j : nat) (b : Blob) (s : St) : Prop :=
  live_contexts s = 1 ∧ live_urls s = 1 ∧ connected_sources s = 1 ∧
  audioContextRef s = Some j ∧ analyserRef s = Some j ∧
  audioSourceRef s = Some j ∧ audioRef s = Some j ∧
  currentAudioUrlRef s = Some j ∧
  contexts (browser s) !! j = Some Running ∧
  analysers (browser s) !! j = Some (live_analyser j) ∧
  sources (browser s) !! j = Some (live_source j) ∧
  bound_source s j = Some j ∧
  urls (browser s) !! j = Some (mkURL b true).

(** ** Published snapshots *)

(** The tasks in which [animate] runs: an animation frame, and the
    delivery of an element event (the "play" listener calls [animate]). *)
Definition sampler_task (a : Action) : Prop :=
  match a with
  | Tick _ _ | Deliver _ _ => True
  | _ => False
  end.

(** ** Sample inputs *)

Definition clipA : Blob := mkBlob "audio/mpeg" [Byte.x01; Byte.x02].
Definition clipB : Blob := mkBlob "audio/mpeg" [Byte.x03].
Definition frame3 : Blob := mkBlob octet_stream [Byte.x0a; Byte.x14; Byte.x1e].
Definition emptyClip : Blob := mkBlob "audio/mpeg" [].
Definition clipC : Blob := mkBlob "audio/mpeg" [Byte.x04].


(** A graph whose analyser was never created, with a frame pending. *)
Definition partial_state : St :=
  mkSt (Some 0) true (Some 0) None (Some 0) (Some 3) (Some 0) None
       (mkBrowser [mkEl None 0 false [] []] [Running] [] [mkSource 0 0 None] []
                  [3] 4 [[Byte.x01]]) None.

(** A paused element without a source while a clip URL is retained. *)
Definition unbound_state : St :=
  mkSt None false None None None None (Some 0) (Some 0)
       (mkBrowser [mkEl None 7 true [] []] [] [] [] [mkURL clipA true] [] 1 []) None.


(** Clip A is played to its end; clip B is submitted; while the call is
    suspended on [close()] the user asks to replay A; [close()] resolves
    and the graph of B is built before the "play" event of A is delivered;
    then the "play" events of A and of B are delivered, the user pauses,
    and the "pause" event of B is delivered. *)
Definition stale_tick_trace : list Action :=
  [Submit (Present clipA) true; PlaySettled true; Deliver 0 [Byte.x07];
   PlaybackEnds 0 90; Deliver 0 []; Deliver 0 [];
   Submit (Present clipB) true; Toggle true; CloseResolved true;
   Deliver 0 [Byte.x08]; Deliver 1 [Byte.x09]; PlaySettled true;
   Toggle true; Deliver 1 []].

(** Two clips, one after the other, each call taken to its end. *)
Definition two_clip_trace : list Action :=
  [Submit (Present clipA) true; PlaySettled true;
   Submit (Present clipB) true; CloseResolved true; PlaySettled true].

(** Clip A is loaded; the call for clip B has run [cleanup] up to
    [await audioContextRef.current.close()] and is suspended there. *)
Definition closing_trace : list Action :=
  [Submit (Present clipA) true; PlaySettled true; Submit (Present clipB) true].

(** Clip A loaded, its call settled. *)
Definition loaded_trace : list Action :=
  [Submit (Present clipA) true; PlaySettled true].

(** Clip A starts playing: its "play" listener samples the analyser. *)
Definition first_sample_trace : list Action :=
  [Submit (Present clipA) true; PlaySettled true; Deliver 0 [Byte.x07]].

(** * The rest of the component *)

(** ** Unmount *)

(** The cleanup function returned by the mount effect (page.tsx, lines
    27-40).  It cancels the recorded frame, closes the context and revokes
    the URL; it assigns no ref, touches no element and awaits nothing: the
    promise of [close()] is dropped, fulfilled or rejected. *)
Definition unmount : M unit :=
  let* r := gets animationFrameRef in
  match r with
  | Some (S h) => cancelAnimationFrame (S h)
  | _ => ret tt
  end;;
  let* ctx := gets audioContextRef in
  match ctx with
  | Some c => try_catch (ctx_close c) (λ _, ret tt)
  | None => ret tt
  end;;
  let* url := gets currentAudioUrlRef in
  match url with
  | Some u => revokeObjectURL u
  | None => ret tt
  end.

(** ** The transcript *)

Inductive Speaker := AI | Human.
Inductive Role := assistant | user.

Record TranscriptEntry := mkEntry {
  text : string;
  speaker : Speaker
}.

Record Message := mkMessage {
  msg_id : string;
  msg_role : Role;
  msg_content : string
}.

(** The two pieces of React state that [handleTranscriptReceived] updates;
    nothing else in the component writes them. *)
Record Chat := mkChat {
  transcript : list TranscriptEntry;
  messages : list Message
}.

(** [handleTranscriptReceived] (lines 42-52); [now] is
    [Date.now().toString()] at the time of the call. *)
Definition handleTranscriptReceived (now : string) (t : string) (sp : Speaker)
    (c : Chat) : Chat :=
  let newMessage :=
    mkMessage now (match sp with AI => assistant | Human => user end) t in
  mkChat (transcript c ++ [mkEntry t sp]) (messages c ++ [newMessage]).

(** A sequence of calls, each with its time stamp. *)
Definition receive_all (calls : list (string * string * Speaker)) (c : Chat) : Chat :=
  foldl (λ c call, handleTranscriptReceived call.1.1 call.1.2 call.2 c) c calls.

Definition role_of (sp : Speaker) : Role :=
  match sp with AI => assistant | Human => user end.

(** ** The render *)

(** The [isActive] prop of the visualizer (line 209):
    [!!audioData && isPlaying].  A typed array is an object, so it is
    truthy whatever its length. *)
Definition isActive (s : St) : bool :=
  match audioData s with
  | Some _ => isPlaying s
  | None => false
  end.

(** * Vocabulary of the further properties *)

(** Animation frame ids are positive, pending ones are distinct, and none
    is ahead of the browser's counter. *)
Definition frames_fresh (s : St) : Prop :=
  1 ≤ next_frame (browser s) ∧
  (∀ h, h ∈ frames (browser s) → 1 ≤ h < next_frame (browser s)) ∧
  NoDup (frames (browser s)) ∧
  (∀ h, animationFrameRef s = Some h → 1 ≤ h < next_frame (browser s)).

(** The task delivers a "play" event: its listener starts a sampling loop. *)
Definition starts_loop (a : Action) (s : St) : Prop :=
  match a with
  | Deliver e _ =>
      ∃ el rest, elements (browser s) !! e = Some el ∧ el_events el = SigPlay :: rest
  | _ => False
  end.

(** Along the run, a "play" event is only delivered when no frame is
    pending. *)
Fixpoint starts_quiet (acts : list Action) (s : St) : Prop :=
  match acts with
  | [] => True
  | a :: rest =>
      (starts_loop a s → frames (browser s) = []) ∧
      match step a s with
      | Some (s1, _) => starts_quiet rest s1
      | None => True
      end
  end.

(** The live frames of a run, in order. *)
Definition live_frame (a : Action) : list Blob :=
  match a with
  | Submit (Present b) _ =>
      if String.eqb (blob_type b) octet_stream then [b] else []
  | _ => []
  end.

Fixpoint live_frames (acts : list Action) : list Blob :=
  match acts with
  | [] => []
  | a :: rest => live_frame a ++ live_frames rest
  end.

(** Clip A loaded and playing. *)
Definition playing_trace : list Action :=
  [Submit (Present clipA) true; PlaySettled true; Deliver 0 [Byte.x07]].

(** What the animation-frame machinery consists of: the pending frames, the
    browser's counter, the recorded id. *)
Definition frame_view (s : St) : list FrameId * FrameId * option FrameId :=
  (frames (browser s), next_frame (browser s), animationFrameRef s).

(** Frame [h] has run. *)
Definition ticked (h : FrameId) (v : list FrameId * FrameId * option FrameId)
    : list FrameId * FrameId * option FrameId :=
  (filter (λ h', h' ≠ h) v.1.1, v.1.2, v.2).

(** A frame has been requested and recorded. *)
Definition requested (v : list FrameId * FrameId * option FrameId)
    : list FrameId * FrameId * option FrameId :=
  (v.1.1 ++ [v.1.2], S v.1.2, Some v.1.2).

(** [frames_fresh] and [frames_tracked], read off the frame machinery. *)
Definition fresh_view (v : list FrameId * FrameId * option FrameId) : Prop :=
  1 ≤ v.1.2 ∧ (∀ h, h ∈ v.1.1 → 1 ≤ h < v.1.2) ∧ NoDup v.1.1 ∧
  (∀ h, v.2 = Some h → 1 ≤ h < v.1.2).

Definition tracked_view (v : list FrameId * FrameId * option FrameId) : Prop :=
  ∀ h, h ∈ v.1.1 → v.2 = Some h ∧ h ≠ 0.

(** No clip has been loaded: the graph manager's part of the state is as
    at mount, no frame is pending, no call is suspended. *)
Definition cold (s : St) : Prop :=
  graph_resources s = graph_resources init ∧
  frames (browser s) = [] ∧ awaiting s = None.

(** The state in which [unmount] leaves [s]. *)
Definition unmounted (s : St) : St :=
  let s1 := match animationFrameRef s with
            | Some (S h) => upd_browser (upd_frames (filter (λ h', h' ≠ S h))) s
            | _ => s
            end in
  let s2 := match audioContextRef s with
            | Some c =>
                match contexts (browser s) !! c with
                | Some Running => close_requested c s1
                | _ => s1
                end
            | None => s1
            end in
  revoked s2.

(** The refs and the two pieces of audio state. *)
Definition refs (s : St) :=
  (audioContextRef s, analyserRef s, audioSourceRef s, animationFrameRef s,
   audioRef s, currentAudioUrlRef s, audioData s, isPlaying s).

(** The sampling loop is armed: the recorded frame is pending. *)
Definition loop_armed (s : St) : Prop :=
  ∃ h, animationFrameRef s = Some h ∧ h ∈ frames (browser s).

(** A snapshot that is published while an analyser is attached has the
    sampling loop behind it. *)
Definition refreshing (s : St) : Prop :=
  is_Some (analyserRef s) → is_Some (audioData s) → loop_armed s.

(** What [refreshing] depends on. *)
Definition loop_view (s : St) :=
  (analyserRef s, audioData s, frames (browser s), animationFrameRef s).

(** ** Disposals *)

(** The effects that give a resource up for good: the releases, and the
    revocation of an object URL. *)
Definition is_disposal (e : Effect) : bool :=
  match e with
  | EDisconnectSource _ | EDisconnectAnalyser _ | ECloseRequested _
  | ECancelFrame _ | ERevokeURL _ => true
  | _ => false
  end.

Definition disposals (l : list Effect) : list Effect := List.filter is_disposal l.

(** How many graphs have been torn down in a phase, and how many URLs
    revoked. *)
Definition torn_down (ph : Phase) : nat :=
  match ph with
  | PIdle => 0
  | PLoaded j => j
  | PClosing j _ => S j
  end.

Definition revoked_urls (ph : Phase) : nat :=
  match ph with
  | PIdle => 0
  | PLoaded j | PClosing j _ => j
  end.

(** A disposal lies behind the state: it concerns a graph already torn
    down, a URL already revoked, or a frame id that is neither recorded nor
    still to come. *)
Definition spent (ph : Phase) (s : St) (e : Effect) : Prop :=
  match e with
  | EDisconnectSource n | EDisconnectAnalyser n | ECloseRequested n =>
      n < torn_down ph
  | ERevokeURL u => u < revoked_urls ph
  | ECancelFrame h =>
      h < next_frame (browser s) ∧ animationFrameRef s ≠ Some h
  | _ => True
  end.


(** * Closed forms of the code *)

(** Running a stretch of code on a state given by its fields: unfold the
    code, the primitives and the field updates, innermost first. *)
Ltac unfold_code :=
  cbv beta iota zeta delta
    [bind ret throw try_catch gets modify emit state_of log_of res_of fst snd
     upd_elements upd_contexts upd_analysers upd_sources upd_urls upd_frames
     upd_next_frame upd_arrays upd_browser
     set_audioData set_isPlaying set_audioContextRef set_analyserRef
     set_audioSourceRef set_animationFrameRef set_audioRef
     set_currentAudioUrlRef set_awaiting
     audioData isPlaying audioContextRef analyserRef audioSourceRef
     animationFrameRef audioRef currentAudioUrlRef browser awaiting
     elements contexts analysers sources urls frames next_frame arrays
     el_src el_currentTime el_paused el_listeners el_events
     an_ctx an_fftSize an_to_destination sn_ctx sn_element sn_output
     url_blob url_live
     el_pause el_play el_get_src el_set_src el_set_currentTime
     el_addEventListener new_Audio createObjectURL revokeObjectURL
     new_AudioContext ctx_close ctx_closed createAnalyser an_set_fftSize
     an_connect_destination an_disconnect createMediaElementSource
     sn_connect sn_disconnect requestAnimationFrame cancelAnimationFrame
     new_Uint8Array getByteFrequencyData console_error setAudioData
     setIsPlaying cancel_pending_frame animate
     on_play on_pause on_ended listener cleanup_until_close
     cleanup_after_close cleanup play_failed build_graph deref truthy
     resume_after_close resume_after_play
     on_element play_requested cancelled cancel_log sampled sample_log
     detached detach_log close_requested close_resolved released release_log
     revoked revoke_log constructed construct_log started start_log
     rebuilt rebuild_log].

Ltac run_code := unfold_code; cbn [app].

Lemma alter_snoc {A} (f : A → A) (l : list A) (x : A) :
  alter f (length l) (l ++ [x]) = l ++ [f x].
Proof.
  rewrite <- (Nat.add_0_r (length l)) at 1. rewrite alter_app_r. reflexivity.
Qed.

Lemma lookup_snoc_length {A} (l : list A) (x : A) :
  (l ++ [x]) !! length l = Some x.
Proof. apply list_lookup_middle. reflexivity. Qed.

Lemma cancel_pending_frame_run s :
  cancel_pending_frame s = (Ret tt, cancelled s, cancel_log s).
Proof.
  unfold cancel_pending_frame, cancelled, cancel_log, bind, gets.
  destruct (animationFrameRef s) as [[|h]|]; reflexivity.
Qed.

Lemma animate_run data s :
  animate data s =
  match analyserRef s with
  | Some a => (Ret tt, sampled a data s, sample_log a s)
  | None => (Ret tt, s, [])
  end.
Proof.
  unfold animate, bind, gets. destruct (analyserRef s) as [a|]; [|reflexivity].
  destruct s as [ad ip cr ar sr fr er ur [els cs ans srcs us fs nf arrs] aw].
  cbn. unfold sampled, upd_browser, upd_arrays; cbn.
  rewrite alter_snoc. reflexivity.
Qed.

Lemma on_play_run data s :
  on_play data s =
  match analyserRef s with
  | Some a => (Ret tt, sampled a data (set_isPlaying true s),
               ESetIsPlaying true :: sample_log a s)
  | None => (Ret tt, set_isPlaying true s, [ESetIsPlaying true])
  end.
Proof.
  unfold on_play, bind.
  change (setIsPlaying true s) with (Ret tt, set_isPlaying true s, [ESetIsPlaying true]).
  cbv iota beta. rewrite animate_run.
  change (analyserRef (set_isPlaying true s)) with (analyserRef s).
  destruct (analyserRef s); reflexivity.
Qed.

Lemma on_pause_run s :
  on_pause s =
  (Ret tt, set_audioData None (cancelled (set_isPlaying false s)),
   ESetIsPlaying false :: cancel_log s ++ [ESetAudioData None]).
Proof.
  unfold on_pause, bind.
  change (setIsPlaying false s) with (Ret tt, set_isPlaying false s, [ESetIsPlaying false]).
  cbv iota beta. rewrite cancel_pending_frame_run. reflexivity.
Qed.

Lemma on_ended_run s :
  on_ended s =
  (Ret tt, set_audioData None (set_isPlaying false (cancelled s)),
   cancel_log s ++ [ESetIsPlaying false; ESetAudioData None]).
Proof.
  unfold on_ended, bind. rewrite cancel_pending_frame_run. reflexivity.
Qed.

Lemma cleanup_until_close_run s :
  cleanup_until_close s =
  match audioContextRef s with
  | Some c =>
      match contexts (browser s) !! c with
      | Some Running =>
          (Ret (Some c), close_requested c (detached s),
           detach_log s ++ [ECloseRequested c])
      | _ => (Raise InvalidStateError, detached s, detach_log s)
      end
  | None => (Ret None, detached s, detach_log s)
  end.
Proof.
  destruct s as [ad ip cr ar sr fr er ur [els cs ans srcs us fs nf arrs] aw].
  unfold cleanup_until_close, detached, detach_log, bind, gets.
  destruct er, sr, ar, cr as [c|]; cbn;
    try reflexivity; destruct (cs !! c) as [[]|]; reflexivity.
Qed.

Lemma cleanup_after_close_run closed s :
  cleanup_after_close closed s = (Ret tt, released closed s, release_log s).
Proof.
  unfold cleanup_after_close, released, release_log, bind.
  destruct closed; cbv beta iota delta [modify ret];
    rewrite cancel_pending_frame_run; cbn; rewrite ?app_nil_r; reflexivity.
Qed.

Lemma build_graph_run b allowed s :
  build_graph b allowed s = (Ret tt, rebuilt b allowed s, rebuild_log allowed s).
Proof.
  destruct s as [ad ip cr ar sr fr er ur [els cs ans srcs us fs nf arrs] aw].
  destruct ur as [u|], allowed; run_code;
    rewrite ?length_alter, ?alter_snoc; run_code;
    rewrite ?alter_snoc; run_code; reflexivity.
Qed.

Lemma not_octet_stream b :
  blob_type b ≠ octet_stream → String.eqb (blob_type b) octet_stream = false.
Proof. intros H. apply String.eqb_neq. exact H. Qed.

(** A clip payload: either the call suspends on [close()], or [close()]
    throws, or (no context to close) the graph is built at once. *)
Lemma handleAudioResponse_clip_run b allowed s :
  blob_type b ≠ octet_stream →
  handleAudioResponse (Present b) allowed s =
  match audioContextRef s with
  | Some c =>
      match contexts (browser s) !! c with
      | Some Running =>
          (Ret tt, set_awaiting (Some (AwaitClose b c)) (close_requested c (detached s)),
           detach_log s ++ [ECloseRequested c])
      | _ => (Raise InvalidStateError, detached s, detach_log s)
      end
  | None =>
      (Ret tt, rebuilt b allowed (released None (detached s)),
       detach_log s ++ release_log (detached s) ++
       rebuild_log allowed (released None (detached s)))
  end.
Proof.
  intros Hty. unfold handleAudioResponse, bind, deref, ret.
  rewrite (not_octet_stream b Hty). cbn [truthy negb].
  rewrite cleanup_until_close_run.
  destruct (audioContextRef s) as [c|].
  - destruct (contexts (browser s) !! c) as [[]|]; try reflexivity.
    cbn. rewrite app_nil_r. reflexivity.
  - rewrite cleanup_after_close_run, build_graph_run. reflexivity.
Qed.

Lemma resume_after_close_run b c allowed s :
  resume_after_close b c allowed s =
  (Ret tt,
   rebuilt b allowed (released (Some c) (close_resolved c (set_awaiting None s))),
   ECloseResolved c :: release_log s ++
   rebuild_log allowed (released (Some c) (close_resolved c (set_awaiting None s)))).
Proof.
  unfold resume_after_close, bind.
  change (modify (set_awaiting None) s) with (Ret tt, set_awaiting None s, @nil Effect).
  cbv iota beta.
  change (ctx_closed c (set_awaiting None s))
    with (Ret tt, close_resolved c (set_awaiting None s), [ECloseResolved c]).
  cbv iota beta.
  rewrite cleanup_after_close_run, build_graph_run. reflexivity.
Qed.

Lemma release_log_detached s : release_log (detached s) = release_log s.
Proof.
  destruct s as [ad ip cr ar sr fr er ur w aw].
  destruct er, sr, ar; reflexivity.
Qed.

Lemma cleanup_run s :
  cleanup s =
  match audioContextRef s with
  | Some c =>
      match contexts (browser s) !! c with
      | Some Running =>
          (Ret tt,
           released (Some c) (close_resolved c (close_requested c (detached s))),
           detach_log s ++ [ECloseRequested c; ECloseResolved c] ++ release_log s)
      | _ => (Raise InvalidStateError, detached s, detach_log s)
      end
  | None => (Ret tt, released None (detached s), detach_log s ++ release_log s)
  end.
Proof.
  unfold cleanup, bind. rewrite cleanup_until_close_run.
  destruct (audioContextRef s) as [c|].
  - destruct (contexts (browser s) !! c) as [[]|]; try reflexivity.
    change (ctx_closed c (close_requested c (detached s)))
      with (Ret tt, close_resolved c (close_requested c (detached s)), [ECloseResolved c]).
    cbv iota beta. rewrite cleanup_after_close_run.
    change (release_log (close_resolved c (close_requested c (detached s))))
      with (release_log (detached s)).
    rewrite release_log_detached, <- !app_assoc. reflexivity.
  - cbn [ret]. cbv iota beta. rewrite cleanup_after_close_run.
    rewrite release_log_detached. reflexivity.
Qed.

(** * Properties *)

(** ** [togglePlayback] *)

Lemma play_logged_run e allowed s :
  play_logged e allowed s =
  (Ret tt, play_requested e allowed s, play_request e allowed).
Proof. destruct allowed; reflexivity. Qed.

Lemma toggle_without_element allowed s :
  audioRef s = None → togglePlayback allowed s = (Ret tt, s, []).
Proof. unfold togglePlayback, bind, gets. intros ->. reflexivity. Qed.

Lemma toggle_while_playing allowed s e :
  audioRef s = Some e → isPlaying s = true →
  togglePlayback allowed s = (Ret tt, on_element e pause_element s, [EPause e]).
Proof. unfold togglePlayback, bind, gets. intros -> ->. reflexivity. Qed.

Lemma toggle_bound_source allowed s e u :
  audioRef s = Some e → isPlaying s = false → bound_source s e = Some u →
  togglePlayback allowed s =
    (Ret tt, play_requested e allowed (on_element e rewind s),
     ESetCurrentTime e 0 :: play_request e allowed).
Proof.
  unfold togglePlayback, bound_source, el_get_src, bind, gets.
  intros -> -> Hsrc. cbn. rewrite Hsrc. cbn.
  rewrite play_logged_run. reflexivity.
Qed.

Lemma toggle_retained_url allowed s e u :
  audioRef s = Some e → isPlaying s = false → bound_source s e = None →
  currentAudioUrlRef s = Some u →
  togglePlayback allowed s =
    (Ret tt, play_requested e allowed (on_element e (rebind u) s),
     ESetSrc e u :: play_request e allowed).
Proof.
  unfold togglePlayback, bound_source, el_get_src, bind, gets.
  intros -> -> Hsrc Hurl. cbn. rewrite Hsrc. cbn. rewrite Hurl. cbn.
  rewrite play_logged_run. reflexivity.
Qed.

Lemma toggle_nothing_to_play allowed s e :
  audioRef s = Some e → isPlaying s = false → bound_source s e = None →
  currentAudioUrlRef s = None →
  togglePlayback allowed s = (Ret tt, s, []).
Proof.
  unfold togglePlayback, bound_source, el_get_src, bind, gets.
  intros -> -> Hsrc Hurl. cbn. rewrite Hsrc. cbn. rewrite Hurl. reflexivity.
Qed.

(** C2.  [togglePlayback], case by case.  Without an element the call does
    nothing.  With an element [e]: while playing, the call only requests
    pause on [e] and leaves [isPlaying] as it is; while not playing, a bound
    source makes it rewind [e] to position 0 and request play; no bound
    source but a retained clip URL makes it bind that URL as the source and
    request play; neither makes it do nothing.  No exception leaves the
    call. *)
Theorem togglePlayback_cases (s : St) (allowed : bool) :
  (audioRef s = None →
     togglePlayback allowed s = (Ret tt, s, [])) ∧
  (∀ e, audioRef s = Some e → isPlaying s = true →
     togglePlayback allowed s = (Ret tt, on_element e pause_element s, [EPause e]) ∧
     isPlaying (on_element e pause_element s) = true) ∧
  (∀ e u, audioRef s = Some e → isPlaying s = false → bound_source s e = Some u →
     togglePlayback allowed s =
       (Ret tt, play_requested e allowed (on_element e rewind s),
        ESetCurrentTime e 0 :: play_request e allowed)) ∧
  (∀ e u, audioRef s = Some e → isPlaying s = false → bound_source s e = None →
     currentAudioUrlRef s = Some u →
     togglePlayback allowed s =
       (Ret tt, play_requested e allowed (on_element e (rebind u) s),
        ESetSrc e u :: play_request e allowed)) ∧
  (∀ e, audioRef s = Some e → isPlaying s = false → bound_source s e = None →
     currentAudioUrlRef s = None →
     togglePlayback allowed s = (Ret tt, s, [])).
Proof.
  split; [|split; [|split; [|split]]].
  - apply toggle_without_element.
  - intros e He Hp. split; [apply toggle_while_playing; assumption | exact Hp].
  - intros e u. apply toggle_bound_source.
  - intros e u. apply toggle_retained_url.
  - intros e. apply toggle_nothing_to_play.
Qed.

(** The retained-URL case at a concrete state: the element gets the URL as
    its source and leaves the paused state. *)
Lemma togglePlayback_cases_witness :
  togglePlayback true unbound_state =
    (Ret tt, play_requested 0 true (on_element 0 (rebind 0) unbound_state),
     [ESetSrc 0 0; EPlay 0]).
Proof.
  exact (proj1 (proj2 (proj2 (proj2 (togglePlayback_cases unbound_state true))))
           0 0 eq_refl eq_refl eq_refl eq_refl).
Defined.

(** ** [handleAudioResponse]: the classifier *)

Lemma live_frame_run b allowed s :
  blob_type b = octet_stream →
  handleAudioResponse (Present b) allowed s =
  (Ret tt,
   set_isPlaying true (set_audioData (Some (length (arrays (browser s))))
     (upd_browser (upd_arrays (λ hs, hs ++ [blob_bytes b])) s)),
   [ENewArray (length (arrays (browser s)));
    ESetAudioData (Some (length (arrays (browser s)))); ESetIsPlaying true]).
Proof.
  intros Hty. unfold handleAudioResponse, bind, deref, ret.
  rewrite Hty, String.eqb_refl. reflexivity.
Qed.

Lemma live_frame_snapshot b allowed s :
  blob_type b = octet_stream →
  snapshot (state_of (handleAudioResponse (Present b) allowed s)) = Some (blob_bytes b).
Proof.
  intros Hty. rewrite (live_frame_run b allowed s Hty).
  unfold state_of, snapshot. cbn. apply lookup_snoc_length.
Qed.

(** C9.  A live-frame payload (content type octet-stream) allocates an array
    holding the bytes of the body, publishes it and sets [isPlaying]; it
    returns normally and neither the refs nor any element, context, node,
    URL or pending frame changes.  From the initial state the bytes
    [10, 20, 30] give status playing, snapshot [10, 20, 30] and no graph. *)
Theorem live_frame_published (b : Blob) (allowed : bool) (s : St) :
  blob_type b = octet_stream →
  let arr := length (arrays (browser s)) in
  let r := handleAudioResponse (Present b) allowed s in
  r = (Ret tt,
       set_isPlaying true (set_audioData (Some arr)
         (upd_browser (upd_arrays (λ hs, hs ++ [blob_bytes b])) s)),
       [ENewArray arr; ESetAudioData (Some arr); ESetIsPlaying true]) ∧
  snapshot (state_of r) = Some (blob_bytes b) ∧
  isPlaying (state_of r) = true ∧
  graph_resources (state_of r) = graph_resources s ∧
  frames (browser (state_of r)) = frames (browser s) ∧
  animationFrameRef (state_of r) = animationFrameRef s ∧
  awaiting (state_of r) = awaiting s ∧
  (let r0 := handleAudioResponse (Present frame3) allowed init in
   Byte.to_N <$> blob_bytes frame3 = [10; 20; 30]%N ∧
   isPlaying (state_of r0) = true ∧
   snapshot (state_of r0) = Some [Byte.x0a; Byte.x14; Byte.x1e] ∧
   graph_resources (state_of r0) = graph_resources init ∧
   contexts (browser (state_of r0)) = []).
Proof.
  intros Hty arr r.
  split; [apply live_frame_run; exact Hty|].
  split; [apply live_frame_snapshot; exact Hty|].
  subst r. rewrite (live_frame_run b allowed s Hty).
  repeat split.
Qed.

Lemma live_frame_published_witness :
  snapshot (state_of (handleAudioResponse (Present frame3) true init))
    = Some [Byte.x0a; Byte.x14; Byte.x1e].
Proof.
  exact (proj1 (proj2 (live_frame_published frame3 true init eq_refl))).
Defined.

(** C4, as stated, fails: a payload with no bytes is a Blob object like any
    other, and a clip of size zero tears down and rebuilds the graph. *)
Lemma empty_payload_not_ignored :
  empty_or_absent (Present emptyClip) ∧
  state_of (handleAudioResponse (Present emptyClip) true init) ≠ init ∧
  contexts (browser (state_of (handleAudioResponse (Present emptyClip) true init)))
    = [Running].
Proof.
  split; [reflexivity|]. split; [|reflexivity].
  intros H. apply (f_equal audioContextRef) in H. discriminate H.
Qed.

(** C4, amended.  A call with an absent payload changes nothing in the
    state and performs no effect.  A payload with no bytes is not treated
    as absent: with content type octet-stream it publishes the empty
    snapshot and sets [isPlaying]; with any other content type, and no
    context to close first, its graph is built on the spot. *)
Theorem absent_payload_changes_nothing (allowed : bool) (s : St) :
  (state_of (handleAudioResponse Absent allowed s) = s ∧
   log_of (handleAudioResponse Absent allowed s) = []) ∧
  (∀ b, blob_bytes b = [] → blob_type b = octet_stream →
     snapshot (state_of (handleAudioResponse (Present b) allowed s)) = Some [] ∧
     isPlaying (state_of (handleAudioResponse (Present b) allowed s)) = true) ∧
  (∀ b, blob_bytes b = [] → blob_type b ≠ octet_stream →
     audioContextRef s = None →
     state_of (handleAudioResponse (Present b) allowed s) =
       rebuilt b allowed (released None (detached s)) ∧
     contexts (browser (state_of (handleAudioResponse (Present b) allowed s))) =
       contexts (browser s) ++ [Running]).
Proof.
  split; [split; reflexivity|]. split.
  - intros b Hb Hty.
    split.
    + rewrite (live_frame_snapshot b allowed s Hty), Hb. reflexivity.
    + rewrite (live_frame_run b allowed s Hty). reflexivity.
  - intros b _ Hty Hctx.
    rewrite (handleAudioResponse_clip_run b allowed s Hty), Hctx.
    split; [reflexivity|].
    destruct s as [ad ip cr ar sr fr er ur [els cs ans srcs us fs nf arrs] aw].
    destruct er, sr, ar, fr as [[|h]|], ur, allowed; run_code; reflexivity.
Qed.

Lemma absent_payload_changes_nothing_witness :
  snapshot (state_of (handleAudioResponse (Present (mkBlob octet_stream [])) true init))
    = Some [] ∧
  isPlaying (state_of (handleAudioResponse (Present (mkBlob octet_stream [])) true init))
    = true.
Proof.
  exact (proj1 (proj2 (absent_payload_changes_nothing true init))
           (mkBlob octet_stream []) eq_refl eq_refl).
Defined.

(** ** A refused play request *)

Lemma rebuilt_refused_kept b s l :
  kept_for_manual_play b (Ret tt, rebuilt b false s, l).
Proof.
  destruct s as [ad ip cr ar sr fr er ur [els cs ans srcs us fs nf arrs] aw].
  unfold kept_for_manual_play.
  destruct ur as [u|]; run_code.
  all: do 4 (split; [reflexivity|]).
  all: eexists _, _, _, _, _.
  all: do 5 (split; [reflexivity|]).
  all: do 4 (split; [apply lookup_snoc_length|]).
  all: match goal with
       | |- ?P ∧ _ => assert (Hb : P);
           [unfold bound_source; run_code; rewrite lookup_snoc_length; reflexivity|]
       end.
  all: split; [exact Hb|].
  all: intros allowed; etransitivity;
    [eapply toggle_bound_source; [reflexivity|reflexivity|exact Hb]|reflexivity].
Qed.

(** C3.  A clip whose play request is refused, in either stretch in which
    the request can be made (at once when there is no context to close,
    or when the awaited [close()] has resolved): the call returns normally,
    [isPlaying] is false and no snapshot is published, while the new
    context runs, the graph is connected and the clip's URL is live and
    bound; [togglePlayback] then rewinds that element and requests play. *)
Theorem rejected_autoplay_keeps_graph (b : Blob) (s : St) :
  blob_type b ≠ octet_stream →
  (audioContextRef s = None →
     kept_for_manual_play b (handleAudioResponse (Present b) false s)) ∧
  (∀ c, kept_for_manual_play b (resume_after_close b c false s)).
Proof.
  intros Hty. split.
  - intros Hctx. rewrite (handleAudioResponse_clip_run b false s Hty), Hctx.
    apply rebuilt_refused_kept.
  - intros c. rewrite resume_after_close_run. apply rebuilt_refused_kept.
Qed.

Lemma rejected_autoplay_keeps_graph_witness :
  kept_for_manual_play clipA (handleAudioResponse (Present clipA) false init).
Proof.
  refine (proj1 (rejected_autoplay_keeps_graph clipA init _) eq_refl).
  discriminate.
Defined.

(** ** Teardown *)

Lemma alter_idemp {A} (f : A → A) (i : nat) (l : list A) :
  (∀ x, f (f x) = f x) → alter f i (alter f i l) = alter f i l.
Proof.
  intros Hf. revert i. induction l as [|x l IH]; intros [|i]; cbn; f_equal; auto.
Qed.

Lemma pause_element_idemp el : pause_element (pause_element el) = pause_element el.
Proof. unfold pause_element. destruct el as [? ? [] ? ?]; reflexivity. Qed.

Ltac distinct_effects :=
  repeat (apply NoDup_cons_2;
          [ let Hin := fresh "Hin" in
            intros Hin;
            repeat (apply elem_of_cons in Hin as [Hin|Hin]; [discriminate Hin|]);
            apply elem_of_nil in Hin; exact Hin
          | ]);
  apply NoDup_nil_2.

Lemma cleanup_twice s s1 l1 :
  cleanup s = (Ret tt, s1, l1) →
  cleanup s1 =
    (Ret tt, s1,
     match audioRef s with Some e => [EPause e] | None => [] end ++
     [ESetAudioData None; ESetIsPlaying false]) ∧
  NoDup (releases l1).
Proof.
  rewrite !cleanup_run.
  destruct s as [ad ip cr ar sr fr er ur [els cs ans srcs us fs nf arrs] aw].
  intros H.
  assert (Hs1 : ∃ cs' ans' srcs' fs' fr',
    s1 = mkSt None false None None None fr' er ur
           (mkBrowser (match er with Some e => alter pause_element e els | None => els end)
                      cs' ans' srcs' us fs' nf arrs) aw ∧
    (fr' = None ∨ fr' = Some 0) ∧ NoDup (releases l1)).
  { cbn [audioContextRef contexts browser] in H.
    destruct cr as [c|]; [destruct (cs !! c) as [[]|]|]; try discriminate H;
      injection H as <- <-;
      destruct er, sr, ar, fr as [[|h]|]; run_code;
      (do 5 eexists; split; [reflexivity|split; [auto|]]);
      unfold releases; cbn [List.filter is_release]; distinct_effects. }
  destruct Hs1 as (cs' & ans' & srcs' & fs' & fr' & -> & Hfr & Hnd).
  split; [|exact Hnd].
  destruct er as [e|], Hfr as [-> | ->]; run_code;
    rewrite ?alter_idemp by apply pause_element_idemp; reflexivity.
Qed.

(** Where the guards of [cleanup] do their work: [cleanup] completes on
    every state whose context, if there is one, is still open, whatever
    subset of the refs is set.  When a run of [cleanup] has completed, a
    second run completes too and leaves the state exactly as the first left
    it; the second run releases nothing, and over both runs no resource is
    released twice. *)
Theorem cleanup_idempotent (s : St) :
  (context_open s → res_of (cleanup s) = Ret tt) ∧
  (∀ s1 l1, cleanup s = (Ret tt, s1, l1) →
     ∃ l2, cleanup s1 = (Ret tt, s1, l2) ∧
           releases l2 = [] ∧
           NoDup (releases (l1 ++ l2))).
Proof.
  split.
  - intros Hopen. rewrite cleanup_run.
    destruct (audioContextRef s) as [c|] eqn:Hc; [|reflexivity].
    rewrite (Hopen c Hc). reflexivity.
  - intros s1 l1 H. destruct (cleanup_twice s s1 l1 H) as [H2 Hnd].
    eexists. split; [exact H2|].
    assert (Hrel : releases (match audioRef s with Some e => [EPause e] | None => [] end ++
                             [ESetAudioData None; ESetIsPlaying false]) = []).
    { destruct (audioRef s); reflexivity. }
    split; [exact Hrel|].
    unfold releases in *. rewrite List.filter_app, Hrel, app_nil_r. exact Hnd.
Qed.

Lemma cleanup_idempotent_witness :
  res_of (cleanup partial_state) = Ret tt ∧
  ∃ l2, cleanup (state_of (cleanup partial_state))
          = (Ret tt, state_of (cleanup partial_state), l2) ∧
        releases l2 = [] ∧
        NoDup (releases (log_of (cleanup partial_state) ++ l2)).
Proof.
  split.
  - apply (proj1 (cleanup_idempotent partial_state)).
    intros c Hc. injection Hc as <-. reflexivity.
  - apply (proj2 (cleanup_idempotent partial_state)). vm_compute. reflexivity.
Defined.

(** C5.  Where the guard on [audioContextRef.current] misses.  [cleanup]
    empties that ref only after the awaited [close()], and the unmount
    cleanup never empties it, so the ref can name a context that is no
    longer running.  (1) Clip A is loaded and the call for clip B is
    suspended in [cleanup] on [close()]: source and analyser are already
    released, the context is closing, the ref still names it.  [cleanup]
    run again in that state, as the call for a clip C does, passes the
    guard, calls [close()] a second time on the same context and raises
    InvalidStateError; the call for C rejects.  (2) Clip A is loaded and
    the component's unmount cleanup has run: the graph is torn down, and
    [cleanup] raises InvalidStateError as well. *)
Lemma teardown_of_closing_context_raises :
  (∃ s l, run closing_trace init = Some (s, l) ∧
          audioSourceRef s = None ∧ analyserRef s = None ∧
          audioContextRef s = Some 0 ∧ contexts (browser s) !! 0 = Some Closing ∧
          res_of (cleanup s) = Raise InvalidStateError ∧
          handleAudioResponse (Present clipC) true s =
            (Raise InvalidStateError, s, [EPause 0])) ∧
  (∃ s l, run loaded_trace init = Some (s, l) ∧
          live_contexts (state_of (unmount s)) = 0 ∧
          res_of (cleanup (state_of (unmount s))) = Raise InvalidStateError).
Proof.
  split.
  - eexists _, _. split; [vm_compute; reflexivity|].
    repeat split; vm_compute; reflexivity.
  - eexists _, _. split; [vm_compute; reflexivity|].
    split; vm_compute; reflexivity.
Qed.


(** ** The "ended" signal *)



Lemma cancelled_no_frames s :
  frames_tracked s → frames (browser (cancelled s)) = [].
Proof.
  intros Htr.
  assert (Hall : ∀ h, h ∈ frames (browser (cancelled s)) → False).
  { intros h Hin. unfold cancelled in Hin.
    destruct (animationFrameRef s) as [[|h0]|] eqn:Hr.
    - destruct (Htr h Hin) as [He Hn]. congruence.
    - cbn in Hin. apply list_elem_of_filter in Hin as [Hne Hin].
      destruct (Htr h Hin) as [He Hn]. congruence.
    - destruct (Htr h Hin) as [He Hn]. congruence. }
  destruct (frames (browser (cancelled s))) as [|h fs]; [reflexivity|].
  destruct (Hall h). left.
Qed.





(** ** The published snapshot and the status *)


Lemma sampled_snapshot a data s :
  is_Some (snapshot (sampled a data s)).
Proof.
  destruct s as [ad ip cr ar sr fr er ur [els cs ans srcs us fs nf arrs] aw].
  unfold snapshot. run_code. cbn. rewrite lookup_snoc_length. eauto.
Qed.



(** ** Cancellation of the sampling loop *)

(** C8 evaluated on [stale_tick_trace].  The "pause" listener has just
    cancelled the frame recorded in [animationFrameRef] and cleared the
    snapshot; the ref is empty and the status is not playing.  Frame 2,
    requested by the earlier of two "play" listeners that ran back to back,
    is still pending: it runs and publishes a snapshot, although no "play"
    signal has arrived since the cancellation. *)
Lemma stale_tick_after_pause :
  ∃ s1 l1 s2 l2,
    run stale_tick_trace init = Some (s1, l1) ∧
    drop (length l1 - 3) l1 =
      [ESetIsPlaying false; ECancelFrame 3; ESetAudioData None] ∧
    isPlaying s1 = false ∧ snapshot s1 = None ∧ animationFrameRef s1 = None ∧
    frames (browser s1) = [2] ∧
    step (Tick 2 [Byte.x0a]) s1 = Some (s2, l2) ∧
    l2 = [ENewArray 3; ESample 1 3; ESetAudioData (Some 3); ERequestFrame 4] ∧
    is_Some (snapshot s2) ∧ isPlaying s2 = false.
Proof.
  eexists _, _, _, _. split; [vm_compute; reflexivity|].
  split; [vm_compute; reflexivity|].
  do 4 (split; [reflexivity|]).
  split; [vm_compute; reflexivity|].
  split; [reflexivity|].
  split; [vm_compute; eauto | reflexivity].
Qed.

(** * The invariant of the event loop *)

Lemma alter_at_end {A} (f : A → A) (l : list A) (x : A) (j : nat) :
  length l = j → alter f j (l ++ [x]) = l ++ [f x].
Proof. intros <-. apply alter_snoc. Qed.

Lemma insert_at_end {A} (l : list A) (x y : A) (j : nat) :
  length l = j → <[j := y]> (l ++ [x]) = l ++ [y].
Proof.
  intros <-. rewrite <- (Nat.add_0_r (length l)) at 1.
  rewrite insert_app_r. reflexivity.
Qed.

Lemma lookup_at_end {A} (l : list A) (x : A) (j : nat) :
  length l = j → (l ++ [x]) !! j = Some x.
Proof. intros <-. apply lookup_snoc_length. Qed.

Lemma fmap_alter_same {A B} (g : A → B) (f : A → A) (i : nat) (l : list A) :
  (∀ x, g (f x) = g x) → g <$> alter f i l = g <$> l.
Proof.
  intros Hgf. revert i. induction l as [|x l IH]; intros [|i]; cbn; f_equal; auto.
Qed.

Lemma fmap_insert_same {A B} (g : A → B) (i : nat) (x y : A) (l : list A) :
  l !! i = Some x → g y = g x → g <$> <[i := y]> l = g <$> l.
Proof.
  revert i. induction l as [|z l IH]; intros [|i] Hl Hg; cbn in *; f_equal; auto.
  congruence.
Qed.

Lemma el_src_pause el : el_src (pause_element el) = el_src el.
Proof. unfold pause_element. destruct (el_paused el); reflexivity. Qed.

Lemma el_src_play el : el_src (play_element el) = el_src el.
Proof. unfold play_element. destruct (el_paused el); reflexivity. Qed.

(** ** Tasks that leave the graph alone *)

Lemma view_on_element e f s :
  (∀ el, el_src (f el) = el_src el) →
  graph_view (on_element e f s) = graph_view s.
Proof.
  intros Hf. unfold graph_view, on_element. cbn.
  rewrite (fmap_alter_same el_src f e _ Hf). reflexivity.
Qed.

Lemma view_listener sig data s :
  graph_view (state_of (listener sig data s)) = graph_view s ∧
  awaiting (state_of (listener sig data s)) = awaiting s.
Proof.
  destruct sig; cbn [listener].
  - rewrite on_play_run. destruct (analyserRef s); split; reflexivity.
  - rewrite on_pause_run. unfold state_of, cancelled. cbn [fst snd].
    destruct (animationFrameRef (set_isPlaying false s)) as [[|?]|]; split; reflexivity.
  - rewrite on_ended_run. unfold state_of, cancelled. cbn [fst snd].
    destruct (animationFrameRef s) as [[|?]|]; split; reflexivity.
Qed.

Lemma view_animate data s :
  graph_view (state_of (animate data s)) = graph_view s ∧
  awaiting (state_of (animate data s)) = awaiting s.
Proof. rewrite animate_run. destruct (analyserRef s); split; reflexivity. Qed.

Lemma view_pop_event e s sig b s1 :
  pop_event e s = Some (sig, b, s1) →
  graph_view s1 = graph_view s ∧ awaiting s1 = awaiting s.
Proof.
  unfold pop_event. destruct (elements (browser s) !! e) as [el|] eqn:Hel; [|discriminate].
  destruct (el_events el) as [|sig' rest]; [discriminate|].
  intros H. injection H as _ _ <-. split; [|reflexivity].
  unfold graph_view. cbn.
  rewrite (fmap_insert_same el_src e el _ _ Hel); reflexivity.
Qed.

Lemma view_end_playback e pos s s1 :
  end_playback e pos s = Some s1 →
  graph_view s1 = graph_view s ∧ awaiting s1 = awaiting s.
Proof.
  unfold end_playback. destruct (elements (browser s) !! e) as [el|] eqn:Hel; [|discriminate].
  destruct (el_paused el); [discriminate|].
  intros H. injection H as <-. split; [|reflexivity].
  unfold graph_view. cbn.
  rewrite (fmap_insert_same el_src e el _ _ Hel); reflexivity.
Qed.

Lemma view_play_requested e allowed s :
  graph_view (play_requested e allowed s) = graph_view s.
Proof.
  unfold play_requested. destruct allowed; [|reflexivity].
  apply view_on_element, el_src_play.
Qed.

(** [togglePlayback] rebinds a source only on an element without one. *)
Lemma view_toggle allowed s :
  (∀ e, audioRef s = Some e → is_Some (bound_source s e)) →
  graph_view (state_of (togglePlayback allowed s)) = graph_view s ∧
  awaiting (state_of (togglePlayback allowed s)) = awaiting s.
Proof.
  intros Hb. destruct (audioRef s) as [e|] eqn:He.
  - destruct (Hb e eq_refl) as [u Hu].
    destruct (isPlaying s) eqn:Hp.
    + rewrite (toggle_while_playing allowed s e He Hp). unfold state_of. cbn [fst snd].
      split; [apply view_on_element, el_src_pause|reflexivity].
    + rewrite (toggle_bound_source allowed s e u He Hp Hu). unfold state_of. cbn [fst snd].
      rewrite view_play_requested. split; [apply view_on_element; reflexivity|].
      destruct allowed; reflexivity.
  - rewrite (toggle_without_element allowed s He). split; reflexivity.
Qed.

(** ** What the shape of a state gives *)

Lemma lookup_fmap_seq {A} (f : nat → A) (n j : nat) :
  j < n → (f <$> seq 0 n) !! j = Some (f j).
Proof.
  intros Hj. rewrite list_lookup_fmap, lookup_seq_lt by exact Hj. reflexivity.
Qed.

Lemma shaped_bound ph clips s :
  shaped ph clips (graph_view s) (awaiting s) →
  ∀ e, audioRef s = Some e → bound_source s e = Some e.
Proof.
  intros Hsh e He.
  assert (Hj : el_src <$> elements (browser s) = Some <$> seq 0 (S e)).
  { destruct ph as [|j|j b]; cbn [shaped] in Hsh.
    - destruct Hsh as (_ & _ & Hv). apply (f_equal v_element) in Hv.
      cbn [v_element graph_view] in Hv. congruence.
    - destruct Hsh as (old & bj & _ & _ & _ & Hv).
      pose proof (f_equal v_element Hv) as H1. pose proof (f_equal v_bound Hv) as H2.
      cbn [v_element v_bound graph_view] in H1, H2. congruence.
    - destruct Hsh as (old & bj & _ & _ & _ & Hv).
      pose proof (f_equal v_element Hv) as H1. pose proof (f_equal v_bound Hv) as H2.
      cbn [v_element v_bound graph_view] in H1, H2. congruence. }
  apply (f_equal (λ l, l !! e)) in Hj.
  rewrite list_lookup_fmap, lookup_fmap_seq in Hj by lia.
  unfold bound_source. destruct (elements (browser s) !! e) as [el|]; cbn in *; congruence.
Qed.

(** A task that changes neither the view nor the suspension keeps the
    shape; so does the settling of the [play()] promise. *)
Lemma shaped_same ph clips s s' :
  graph_view s' = graph_view s → awaiting s' = awaiting s →
  shaped ph clips (graph_view s) (awaiting s) →
  shaped ph clips (graph_view s') (awaiting s').
Proof. intros -> ->. auto. Qed.

Lemma shaped_play_settled ph clips s s' e :
  graph_view s' = graph_view s → awaiting s = Some (AwaitPlay e) → awaiting s' = None →
  shaped ph clips (graph_view s) (awaiting s) →
  shaped ph clips (graph_view s') (awaiting s').
Proof.
  intros -> Haw ->. rewrite Haw. destruct ph as [|j|j b]; cbn.
  - intros (_ & H & _). discriminate H.
  - intros (old & bj & H1 & H2 & _ & H4). exists old, bj. auto.
  - intros (old & bj & _ & _ & H & _). discriminate H.
Qed.

(** ** Tasks of the graph manager *)

Ltac list_shape :=
  repeat first
    [ rewrite (fmap_alter_same el_src) by (intros; first [apply el_src_pause | apply el_src_play | reflexivity])
    | rewrite alter_at_end by (rewrite ?length_fmap, ?length_seq, ?length_replicate, ?length_app; cbn; lia)
    | rewrite insert_at_end by (rewrite ?length_fmap, ?length_seq, ?length_replicate, ?length_app; cbn; lia)
    | rewrite lookup_at_end by (rewrite ?length_fmap, ?length_seq, ?length_replicate, ?length_app; cbn; lia) ].

Lemma shaped_first_clip b allowed s :
  shaped PIdle [] (graph_view s) (awaiting s) →
  let s' := rebuilt b allowed (released None (detached s)) in
  shaped (PLoaded 0) [b] (graph_view s') (awaiting s').
Proof.
  destruct s as [ad ip cr ar sr fr er ur [els cs ans srcs us fs nf arrs] aw].
  cbn. intros (_ & -> & Hv). injection Hv as -> -> -> -> -> Hels -> -> -> ->.
  destruct els; [|discriminate Hels].
  exists [], b. split; [reflexivity|]. split; [reflexivity|].
  destruct fr as [[|h]|], allowed; run_code; (split; [auto|]); reflexivity.
Qed.

Ltac view_field Hv f :=
  let H := fresh "Hf" in
  pose proof (f_equal f Hv) as H;
  cbv beta iota delta
    [v_context v_analyser v_source v_element v_url v_bound v_contexts
     v_analysers v_sources v_urls] in H;
  match type of H with ?x = _ => subst x end.

Ltac open_shape Hv Hels :=
  pose proof (f_equal v_bound Hv) as Hels;
  cbv beta iota delta [v_bound] in Hels;
  view_field Hv v_context; view_field Hv v_analyser; view_field Hv v_source;
  view_field Hv v_element; view_field Hv v_url; view_field Hv v_contexts;
  view_field Hv v_analysers; view_field Hv v_sources; view_field Hv v_urls;
  clear Hv.

Ltac shape_fields :=
  unfold shaped, graph_view;
  cbv beta iota zeta delta
    [awaiting audioContextRef analyserRef audioSourceRef audioRef
     currentAudioUrlRef browser elements contexts analysers sources urls].

Ltac view_of_state :=
  unfold_code; unfold graph_view;
  cbn [audioContextRef analyserRef audioSourceRef audioRef currentAudioUrlRef
       browser elements contexts analysers sources urls awaiting].

Lemma shaped_suspend b clips j s :
  shaped (PLoaded j) clips (graph_view s) (awaiting s) →
  let s' := set_awaiting (Some (AwaitClose b j)) (close_requested j (detached s)) in
  shaped (PClosing j b) (clips ++ [b]) (graph_view s') (awaiting s').
Proof.
  destruct s as [ad ip cr ar sr fr er ur [els cs ans srcs us fs nf arrs] aw].
  shape_fields.
  intros (old & bj & -> & Hlen & _ & Hv). open_shape Hv Hels.
  exists old, bj. split; [rewrite <- app_assoc; reflexivity|].
  split; [exact Hlen|]. split; [reflexivity|].
  view_of_state. fold el_src. list_shape. rewrite Hels, !seq_S, !fmap_app. reflexivity.
Qed.

Lemma shaped_resume b clips j s allowed :
  shaped (PClosing j b) clips (graph_view s) (awaiting s) →
  let s' := rebuilt b allowed (released (Some j) (close_resolved j (set_awaiting None s))) in
  shaped (PLoaded (S j)) clips (graph_view s') (awaiting s').
Proof.
  destruct s as [ad ip cr ar sr fr er ur [els cs ans srcs us fs nf arrs] aw].
  shape_fields.
  intros (old & bj & -> & Hlen & _ & Hv). open_shape Hv Hels.
  assert (Hl : length els = S j).
  { apply (f_equal length) in Hels. rewrite !length_fmap, length_seq in Hels. exact Hels. }
  exists (old ++ [bj]), b. split; [rewrite <- app_assoc; reflexivity|].
  split; [rewrite length_app; cbn; lia|].
  destruct fr as [[|h]|], allowed; view_of_state.
  all: fold el_src; rewrite ?Hl.
  all: split; [first [left; reflexivity | right; reflexivity]|].
  all: rewrite ?length_insert, ?length_alter, ?length_app, ?length_fmap, ?length_seq,
         ?length_replicate, ?length_cons, ?length_nil, ?Hl, ?Hlen, ?Nat.add_1_r.
  all: list_shape.
  all: rewrite ?fmap_app, ?Hels, !seq_S, !fmap_app, ?replicate_S_end, <- ?app_assoc.
  all: reflexivity.
Qed.

Lemma shaped_loaded_context clips j s :
  shaped (PLoaded j) clips (graph_view s) (awaiting s) →
  audioContextRef s = Some j ∧ contexts (browser s) !! j = Some Running.
Proof.
  intros (old & bj & _ & _ & _ & Hv).
  pose proof (f_equal v_context Hv) as H1. pose proof (f_equal v_contexts Hv) as H2.
  cbv beta iota delta [v_context v_contexts graph_view] in H1, H2.
  split; [exact H1|]. rewrite H2. apply lookup_at_end, length_replicate.
Qed.

Lemma shaped_awaiting ph clips s :
  shaped ph clips (graph_view s) (awaiting s) →
  match awaiting s with
  | None => ph = PIdle ∨ ∃ j, ph = PLoaded j
  | Some (AwaitPlay e) => ph = PLoaded e
  | Some (AwaitClose b c) => ph = PClosing c b
  end.
Proof.
  destruct ph as [|j|j b]; cbn [shaped].
  - intros (_ & -> & _). auto.
  - intros (old & bj & _ & _ & [-> | ->] & _); eauto.
  - intros (old & bj & _ & _ & -> & _). reflexivity.
Qed.

(** ** Establish, preserve *)

Lemma Inv_init : Inv [] init.
Proof. exists PIdle. repeat split. Qed.

Lemma Inv_step a s s' l clips :
  Inv clips s → step a s = Some (s', l) → Inv (clips ++ accepted_clip a) s'.
Proof.
  intros [ph Hsh] Hstep.
  pose proof (shaped_awaiting ph clips s Hsh) as Hph.
  destruct a as [p allowed|allowed|ok|allowed|e data|e pos|h data];
    cbn [step accepted_clip] in *.
  - (* Submit *)
    destruct (awaiting s) as [w|] eqn:Haw; [discriminate|].
    rewrite <- Haw in Hsh.
    injection Hstep as <- <-. unfold exec. cbn [fst].
    destruct p as [|b].
    { rewrite app_nil_r. exists ph. exact Hsh. }
    destruct (String.eqb (blob_type b) octet_stream) eqn:Hty.
    { apply String.eqb_eq in Hty. rewrite app_nil_r.
      rewrite (live_frame_run b allowed s Hty). exists ph.
      unfold state_of. cbn [fst snd].
      change (shaped ph clips (graph_view s) (awaiting s)). exact Hsh. }
    apply String.eqb_neq in Hty.
    rewrite (handleAudioResponse_clip_run b allowed s Hty).
    destruct Hph as [-> | [j ->]].
    + assert (Hc : audioContextRef s = None).
      { destruct Hsh as (_ & _ & Hv). apply (f_equal v_context) in Hv. exact Hv. }
      assert (Hcl : clips = []) by apply Hsh.
      rewrite Hc, Hcl. unfold state_of. cbn [fst snd].
      exists (PLoaded 0). apply shaped_first_clip. rewrite <- Hcl. exact Hsh.
    + destruct (shaped_loaded_context clips j s Hsh) as [Hc Hrun].
      rewrite Hc, Hrun. unfold state_of. cbn [fst snd].
      exists (PClosing j b). apply shaped_suspend. exact Hsh.
  - (* CloseResolved *)
    destruct (awaiting s) as [[b c|e]|] eqn:Haw; try discriminate.
    rewrite <- Haw in Hsh.
    injection Hstep as <- <-. unfold exec. subst ph.
    rewrite resume_after_close_run. unfold state_of. cbn [fst snd].
    rewrite app_nil_r. exists (PLoaded (S c)). apply shaped_resume.
    exact Hsh.
  - (* PlaySettled *)
    destruct (awaiting s) as [[b c|e]|] eqn:Haw; try discriminate.
    injection Hstep as <- <-. rewrite app_nil_r. exists ph.
    rewrite <- Haw in Hsh.
    apply (shaped_play_settled ph clips s _ e); auto; destruct ok; reflexivity.
  - (* Toggle *)
    injection Hstep as <- <-. rewrite app_nil_r. exists ph. unfold exec. cbn [fst].
    destruct (view_toggle allowed s) as [Hv Ha].
    { intros e He. rewrite (shaped_bound ph clips s Hsh e He). eauto. }
    apply (shaped_same ph clips s); assumption.
  - (* Deliver *)
    destruct (pop_event e s) as [[[sig b] s1]|] eqn:Hpop; [|discriminate].
    destruct (view_pop_event e s sig b s1 Hpop) as [Hv1 Ha1].
    rewrite app_nil_r. exists ph.
    destruct b; injection Hstep as <- <-.
    + destruct (view_listener sig data s1) as [Hv2 Ha2]. unfold exec. cbn [fst].
      apply (shaped_same ph clips s); congruence.
    + apply (shaped_same ph clips s); assumption.
  - (* PlaybackEnds *)
    destruct (end_playback e pos s) as [s1|] eqn:Hend; [|discriminate].
    injection Hstep as <- <-. rewrite app_nil_r. exists ph.
    destruct (view_end_playback e pos s s1 Hend) as [Hv1 Ha1].
    apply (shaped_same ph clips s); assumption.
  - (* Tick *)
    destruct (bool_decide (h ∈ frames (browser s))); [|discriminate].
    injection Hstep as <- <-. rewrite app_nil_r. exists ph. unfold exec. cbn [fst].
    destruct (view_animate data
      (upd_browser (upd_frames (filter (λ h', h' ≠ h))) s)) as [Hv Ha].
    apply (shaped_same ph clips s); [rewrite Hv|rewrite Ha|]; auto.
Qed.

Lemma Inv_run acts : ∀ s s' l clips,
  Inv clips s → run acts s = Some (s', l) → Inv (clips ++ accepted acts) s'.
Proof.
  induction acts as [|a acts IH]; intros s s' l clips Hinv Hrun; cbn in Hrun.
  - injection Hrun as <- <-. cbn. rewrite app_nil_r. exact Hinv.
  - destruct (step a s) as [[s1 l1]|] eqn:Hstep; [|discriminate].
    destruct (run acts s1) as [[s2 l2]|] eqn:Hrest; [|discriminate].
    injection Hrun as <- <-. cbn [accepted]. rewrite app_assoc.
    eapply IH; [|exact Hrest]. eapply Inv_step; eassumption.
Qed.

Lemma Inv_reachable acts s l :
  run acts init = Some (s, l) → Inv (accepted acts) s.
Proof. intros Hrun. apply (Inv_run acts init s l [] Inv_init Hrun). Qed.

(** * Exclusivity and order *)

Lemma filter_closed j :
  filter (λ c : CtxState, c = Running) (replicate j Closed) = [].
Proof.
  induction j as [|j IH]; [reflexivity|].
  rewrite replicate_S, filter_cons_False; [exact IH | discriminate].
Qed.

Lemma filter_revoked (old : list Blob) :
  filter (λ o, url_live o = true) (revoked_url <$> old) = [].
Proof.
  induction old as [|b old IH]; [reflexivity|].
  rewrite fmap_cons, filter_cons_False; [exact IH | discriminate].
Qed.

Lemma filter_dead_sources (l : list nat) :
  filter (λ sn, is_Some (sn_output sn)) (dead_source <$> l) = [].
Proof.
  induction l as [|i l IH]; [reflexivity|].
  rewrite fmap_cons, filter_cons_False; [exact IH|].
  intros [x Hx]. discriminate Hx.
Qed.

Lemma shaped_exclusive clips bs bN s :
  shaped (PLoaded (length bs)) clips (graph_view s) (awaiting s) →
  clips = bs ++ [bN] →
  exclusive_graph (length bs) bN s.
Proof.
  intros Hsh ->.
  pose proof (shaped_bound _ _ s Hsh) as Hb.
  destruct Hsh as (old & bj & Hcl & Hlen & _ & Hv).
  apply app_inj_tail in Hcl as [-> ->].
  pose proof (f_equal v_context Hv) as H1. pose proof (f_equal v_analyser Hv) as H2.
  pose proof (f_equal v_source Hv) as H3. pose proof (f_equal v_element Hv) as H4.
  pose proof (f_equal v_url Hv) as H5. pose proof (f_equal v_contexts Hv) as H6.
  pose proof (f_equal v_analysers Hv) as H7. pose proof (f_equal v_sources Hv) as H8.
  pose proof (f_equal v_urls Hv) as H9.
  cbv beta iota delta
    [v_context v_analyser v_source v_element v_url v_contexts v_analysers
     v_sources v_urls graph_view] in H1, H2, H3, H4, H5, H6, H7, H8, H9.
  unfold exclusive_graph, live_contexts, live_urls, connected_sources.
  rewrite H6, H7, H8, H9, !list.filter_app, filter_closed, filter_revoked,
    filter_dead_sources.
  repeat split; try assumption; try reflexivity.
  - apply lookup_at_end, length_replicate.
  - apply lookup_at_end. rewrite length_fmap, length_seq. reflexivity.
  - apply lookup_at_end. rewrite length_fmap, length_seq. reflexivity.
  - apply Hb. exact H4.
  - apply lookup_at_end. rewrite length_fmap. exact Hlen.
Qed.

Lemma exclusive_after_clips acts s l bs bN :
  run acts init = Some (s, l) →
  accepted acts = bs ++ [bN] →
  (∀ b c, awaiting s ≠ Some (AwaitClose b c)) →
  exclusive_graph (length bs) bN s.
Proof.
  intros Hrun Hacc Hnc.
  destruct (Inv_reachable acts s l Hrun) as [ph Hsh].
  rewrite Hacc in Hsh.
  destruct ph as [|j|j b].
  - destruct Hsh as (Hcl & _). destruct bs; discriminate Hcl.
  - assert (Hj : j = length bs).
    { destruct Hsh as (old & bj & Hcl & Hlen & _).
      apply app_inj_tail in Hcl as [-> _]. auto. }
    subst j. eapply shaped_exclusive; [exact Hsh|reflexivity].
  - destruct Hsh as (old & bj & _ & _ & Haw & _). destruct (Hnc _ _ Haw).
Qed.

Ltac count_objects Hl :=
  rewrite ?length_insert, ?length_alter, ?length_app, ?length_fmap, ?length_seq,
    ?length_replicate, ?length_cons, ?length_nil, ?Hl, ?Nat.add_1_r.

Lemma first_call_order s b allowed :
  shaped PIdle [] (graph_view s) (awaiting s) →
  blob_type b ≠ octet_stream →
  step (Submit (Present b) allowed) s =
    Some (rebuilt b allowed (released None (detached s)),
          cancel_log s ++ [ESetAudioData None; ESetIsPlaying false] ++
          build_effects 0 ++ start_log 0 allowed).
Proof.
  intros Hsh Hty. unfold step, exec.
  rewrite (handleAudioResponse_clip_run b allowed s Hty).
  destruct s as [ad ip cr ar sr fr er ur [els cs ans srcs us fs nf arrs] aw].
  revert Hsh. shape_fields. intros (_ & -> & Hv).
  injection Hv as -> -> -> -> -> Hels -> -> -> ->.
  destruct els; [|discriminate Hels].
  destruct fr as [[|h]|], allowed; reflexivity.
Qed.

Lemma next_call_suspends s j clips b allowed :
  shaped (PLoaded j) clips (graph_view s) (awaiting s) →
  awaiting s = None →
  blob_type b ≠ octet_stream →
  let s1 := set_awaiting (Some (AwaitClose b j)) (close_requested j (detached s)) in
  step (Submit (Present b) allowed) s = Some (s1, teardown_requests j) ∧
  urls (browser s1) = urls (browser s) ∧
  length (contexts (browser s1)) = length (contexts (browser s)) ∧
  contexts (browser s1) !! j = Some Closing.
Proof.
  intros Hsh Haw Hty s1.
  destruct (shaped_loaded_context clips j s Hsh) as [Hc Hrun].
  assert (Hstep : step (Submit (Present b) allowed) s = Some (s1, teardown_requests j)).
  { unfold step, exec. rewrite Haw.
    rewrite (handleAudioResponse_clip_run b allowed s Hty), Hc, Hrun.
    destruct Hsh as (old & bj & _ & _ & _ & Hv).
    pose proof (f_equal v_analyser Hv) as H2. pose proof (f_equal v_source Hv) as H3.
    pose proof (f_equal v_element Hv) as H4.
    cbv beta iota delta [v_analyser v_source v_element graph_view] in H2, H3, H4.
    unfold state_of, log_of, detach_log. cbn [fst snd]. rewrite H2, H3, H4. reflexivity. }
  split; [exact Hstep|].
  pose proof (shaped_suspend b clips j s Hsh) as (old & bj & _ & _ & _ & Hv).
  fold s1 in Hv.
  pose proof (f_equal v_contexts Hv) as H6.
  cbv beta iota delta [v_contexts graph_view] in H6.
  split; [|split].
  - subst s1.
    destruct s as [ad ip cr ar sr fr er ur [els cs ans srcs us fs nf arrs] aw].
    destruct er, sr, ar; reflexivity.
  - subst s1. unfold close_requested, detached.
    destruct s as [ad ip cr ar sr fr er ur [els cs ans srcs us fs nf arrs] aw].
    destruct er, sr, ar; unfold_code; apply length_insert.
  - rewrite H6. apply lookup_at_end, length_replicate.
Qed.

Lemma resumed_call_order s j b clips allowed :
  shaped (PClosing j b) clips (graph_view s) (awaiting s) →
  let s2 := rebuilt b allowed (released (Some j) (close_resolved j (set_awaiting None s))) in
  step (CloseResolved allowed) s =
    Some (s2,
          ECloseResolved j :: cancel_log s ++
          [ESetAudioData None; ESetIsPlaying false] ++ [ERevokeURL j] ++
          build_effects (S j) ++ start_log (S j) allowed) ∧
  contexts (browser s2) !! j = Some Closed ∧
  url_live <$> urls (browser s2) !! j = Some false.
Proof.
  intros Hsh s2. subst s2.
  destruct s as [ad ip cr ar sr fr er ur [els cs ans srcs us fs nf arrs] aw].
  revert Hsh. shape_fields. intros (old & bj & -> & Hlen & -> & Hv). open_shape Hv Hels.
  assert (Hl : length els = S j).
  { apply (f_equal length) in Hels. rewrite !length_fmap, length_seq in Hels. exact Hels. }
  unfold step, exec. cbv beta iota delta [awaiting].
  rewrite resume_after_close_run.
  split; [|split].
  - unfold state_of, log_of. cbn [fst snd]. f_equal. f_equal.
    destruct fr as [[|h]|], allowed; unfold_code; count_objects Hl; rewrite ?Hlen;
      reflexivity.
  - destruct fr as [[|h]|], allowed; unfold_code; list_shape.
    all: rewrite lookup_app_l by (count_objects Hl; lia).
    all: apply lookup_at_end, length_replicate.
  - destruct fr as [[|h]|], allowed; unfold_code; list_shape.
    all: rewrite lookup_app_l by (count_objects Hl; cbn; lia).
    all: rewrite lookup_at_end by (rewrite length_fmap; exact Hlen).
    all: reflexivity.
Qed.

(** C1, as stated, fails for calls that overlap.  Clip A is loaded and the
    call for clip B is suspended on [close()] when a third call brings clip
    C: it rejects in [cleanup].  When the call for B has run to its end,
    every call has settled; the element's source is the URL of B, the
    second clip of three, and no object URL was ever created for C. *)
Lemma overlapping_call_loses_its_clip :
  ∃ s l s1 l1 s3 l3,
    run closing_trace init = Some (s, l) ∧
    handleAudioResponse (Present clipC) true s = (Raise InvalidStateError, s1, l1) ∧
    run [CloseResolved true; PlaySettled true] s1 = Some (s3, l3) ∧
    awaiting s3 = None ∧
    audioRef s3 = Some 1 ∧ bound_source s3 1 = Some 1 ∧
    urls (browser s3) = [mkURL clipA false; mkURL clipB true].
Proof.
  eexists _, _, _, _, _, _.
  split; [vm_compute; reflexivity|].
  split; [vm_compute; reflexivity|].
  split; [vm_compute; reflexivity|].
  repeat split.
Qed.

(** C1, amended.  In every run of the event loop from the initial state in
    which the calls of [handleAudioResponse] follow one another, each
    starting only when no earlier call is suspended (this is what [step]
    admits), with any other tasks in between.  (1) Once the run has accepted clips [bs ++ [bN]] and no call
    is suspended in [cleanup], exactly one context runs, exactly one object
    URL is live, exactly one source node is connected; the refs point to
    the graph of clip [bN], and the element's source is the URL of [bN].
    (2) The next call for a clip: with no clip loaded it builds the graph at
    once; with a graph live its first stretch only pauses the element,
    disconnects the source and the analyser and asks the context to close,
    then suspends: no URL is revoked and nothing is constructed.  (3) When
    the awaited [close()] has resolved, the continuation cancels the pending
    frame, clears the published state, then revokes the previous URL, then
    constructs context, analyser, element, URL and source; the previous
    context is closed and the previous URL revoked. *)
Theorem one_graph_per_clip (acts : list Action) (s : St) (l : list Effect) :
  run acts init = Some (s, l) →
  (∀ bs bN, accepted acts = bs ++ [bN] →
     (∀ b c, awaiting s ≠ Some (AwaitClose b c)) →
     exclusive_graph (length bs) bN s) ∧
  (∀ b allowed, blob_type b ≠ octet_stream → awaiting s = None →
     (accepted acts = [] →
        step (Submit (Present b) allowed) s =
          Some (rebuilt b allowed (released None (detached s)),
                cancel_log s ++ [ESetAudioData None; ESetIsPlaying false] ++
                build_effects 0 ++ start_log 0 allowed)) ∧
     (∀ bs bN, accepted acts = bs ++ [bN] →
        let j := length bs in
        let s1 := set_awaiting (Some (AwaitClose b j)) (close_requested j (detached s)) in
        step (Submit (Present b) allowed) s = Some (s1, teardown_requests j) ∧
        urls (browser s1) = urls (browser s) ∧
        length (contexts (browser s1)) = length (contexts (browser s)) ∧
        contexts (browser s1) !! j = Some Closing)) ∧
  (∀ b c allowed, awaiting s = Some (AwaitClose b c) →
     let s2 := rebuilt b allowed (released (Some c) (close_resolved c (set_awaiting None s))) in
     step (CloseResolved allowed) s =
       Some (s2,
             ECloseResolved c :: cancel_log s ++
             [ESetAudioData None; ESetIsPlaying false] ++ [ERevokeURL c] ++
             build_effects (S c) ++ start_log (S c) allowed) ∧
     contexts (browser s2) !! c = Some Closed ∧
     url_live <$> urls (browser s2) !! c = Some false ∧
     exclusive_graph (S c) b s2).
Proof.
  intros Hrun.
  destruct (Inv_reachable acts s l Hrun) as [ph Hsh].
  pose proof (shaped_awaiting ph _ s Hsh) as Hph.
  split; [|split].
  - intros bs bN Hacc Hnc. eapply exclusive_after_clips; eassumption.
  - intros b allowed Hty Haw. rewrite Haw in Hph. split.
    + intros Hacc. rewrite Hacc in Hsh.
      destruct Hph as [-> | [j ->]].
      * apply first_call_order; assumption.
      * destruct Hsh as (old & bj & Hcl & _). destruct old; discriminate Hcl.
    + intros bs bN Hacc. rewrite Hacc in Hsh.
      destruct Hph as [-> | [j ->]].
      * destruct Hsh as (Hcl & _). destruct bs; discriminate Hcl.
      * assert (Hj : j = length bs).
        { destruct Hsh as (old & bj & Hcl & Hlen & _).
          apply app_inj_tail in Hcl as [-> _]. auto. }
        subst j. eapply next_call_suspends; eassumption.
  - intros b c allowed Haw. rewrite Haw in Hph. subst ph.
    destruct (resumed_call_order s c b _ allowed Hsh) as (Hstep & Hctx & Hurl).
    split; [exact Hstep|]. split; [exact Hctx|]. split; [exact Hurl|].
    pose proof (shaped_resume b _ c s allowed Hsh) as Hsh2.
    destruct Hsh as (old & bj & Hcl & Hlen & _).
    assert (Hc : S c = length (old ++ [bj])) by (rewrite length_app; cbn; lia).
    rewrite Hc in *. eapply shaped_exclusive; [exact Hsh2|].
    rewrite Hcl, <- app_assoc. reflexivity.
Qed.

Lemma one_graph_per_clip_witness :
  ∃ s l, run two_clip_trace init = Some (s, l) ∧ exclusive_graph 1 clipB s.
Proof.
  eexists _, _.
  assert (Hrun : run two_clip_trace init = Some (_, _))
    by (vm_compute; reflexivity).
  split; [exact Hrun|].
  apply (proj1 (one_graph_per_clip two_clip_trace _ _ Hrun) [clipA] clipB eq_refl).
  intros b c H. discriminate H.
Defined.

(** * Published snapshots *)

Lemma length_overwrite data old : length (overwrite data old) = length old.
Proof. unfold overwrite. rewrite length_app, length_take, length_drop. lia. Qed.

Ltac in_log H :=
  repeat (apply elem_of_cons in H as [H|H];
          [first [discriminate H | injection H as H]|]);
  try (apply elem_of_nil in H; destruct H).

(** What [animate] publishes when analyser [a] has a 256-sample transform. *)
Lemma sampled_publishes a data s an :
  analysers (browser s) !! a = Some an → an_fftSize an = 256 →
  ∃ bytes,
    arrays (browser (sampled a data s)) = arrays (browser s) ++ [bytes] ∧
    length bytes = 128 ∧
    audioData (sampled a data s) = Some (length (arrays (browser s))).
Proof.
  intros Han Hfft.
  exists (overwrite data (replicate (frequencyBinCount (browser s) a) Byte.x00)).
  split; [reflexivity|]. split; [|reflexivity].
  rewrite length_overwrite, length_replicate.
  unfold frequencyBinCount. rewrite Han, Hfft. reflexivity.
Qed.

Lemma shaped_analyser ph clips s a :
  shaped ph clips (graph_view s) (awaiting s) →
  analyserRef s = Some a →
  analysers (browser s) !! a = Some (live_analyser a).
Proof.
  intros Hsh Ha. destruct ph as [|j|j b]; cbn [shaped] in Hsh.
  - destruct Hsh as (_ & _ & Hv). apply (f_equal v_analyser) in Hv.
    cbv beta iota delta [v_analyser graph_view] in Hv. congruence.
  - destruct Hsh as (old & bj & _ & _ & _ & Hv).
    pose proof (f_equal v_analyser Hv) as H1. pose proof (f_equal v_analysers Hv) as H2.
    cbv beta iota delta [v_analyser v_analysers graph_view] in H1, H2.
    assert (a = j) by congruence. subst a. rewrite H2.
    apply lookup_at_end. rewrite length_fmap, length_seq. reflexivity.
  - destruct Hsh as (old & bj & _ & _ & _ & Hv). apply (f_equal v_analyser) in Hv.
    cbv beta iota delta [v_analyser graph_view] in Hv. congruence.
Qed.

Lemma animate_publishes data s arr :
  (∀ a, analyserRef s = Some a → analysers (browser s) !! a = Some (live_analyser a)) →
  ESetAudioData (Some arr) ∈ log_of (animate data s) →
  arr = length (arrays (browser s)) ∧
  ∃ bytes,
    arrays (browser (state_of (animate data s))) = arrays (browser s) ++ [bytes] ∧
    length bytes = 128 ∧
    audioData (state_of (animate data s)) = Some arr.
Proof.
  intros Han Hin. rewrite animate_run in *.
  destruct (analyserRef s) as [a|] eqn:Ha; unfold log_of, state_of in *; cbn [fst snd] in *.
  - unfold sample_log in Hin. in_log Hin. subst arr. split; [reflexivity|].
    apply (sampled_publishes a data s (live_analyser a)); [auto|reflexivity].
  - in_log Hin.
Qed.

Lemma pop_event_arrays e s sig b s1 :
  pop_event e s = Some (sig, b, s1) → arrays (browser s1) = arrays (browser s).
Proof.
  unfold pop_event. destruct (elements (browser s) !! e) as [el|]; [|discriminate].
  destruct (el_events el); [discriminate|]. intros H. injection H as _ _ <-. reflexivity.
Qed.

Lemma sampler_publication ph clips a s s' l' arr :
  shaped ph clips (graph_view s) (awaiting s) →
  step a s = Some (s', l') → sampler_task a →
  ESetAudioData (Some arr) ∈ l' →
  arrays (browser s) !! arr = None ∧
  ∃ bytes, arrays (browser s') !! arr = Some bytes ∧ length bytes = 128 ∧
           audioData s' = Some arr.
Proof.
  intros Hsh Hstep Htask Hin.
  assert (Hgen : ∀ s0 data,
    graph_view s0 = graph_view s → awaiting s0 = awaiting s →
    arrays (browser s0) = arrays (browser s) →
    ESetAudioData (Some arr) ∈ log_of (animate data s0) →
    arrays (browser s) !! arr = None ∧
    ∃ bytes, arrays (browser (state_of (animate data s0))) !! arr = Some bytes ∧
             length bytes = 128 ∧ audioData (state_of (animate data s0)) = Some arr).
  { intros s0 data Hv Haw Harr Hlog.
    destruct (animate_publishes data s0 arr) as (-> & bytes & Hb & Hlen & Had); auto.
    - intros a0. apply (shaped_analyser ph clips). rewrite Hv, Haw. exact Hsh.
    - rewrite Harr in *. split; [apply lookup_ge_None_2; lia|].
      exists bytes. rewrite Hb. split; [apply lookup_snoc_length|]. split; assumption. }
  destruct a as [| | | |e data|e pos|h data]; try destruct Htask; cbn [step] in Hstep.
  - destruct (pop_event e s) as [[[sig b] s1]|] eqn:Hpop; [|discriminate].
    destruct (view_pop_event e s sig b s1 Hpop) as [Hv1 Ha1].
    pose proof (pop_event_arrays e s sig b s1 Hpop) as Harr.
    destruct b; injection Hstep as <- <-; [|in_log Hin].
    unfold exec in *. cbn [fst snd] in *.
    destruct sig; cbn [listener] in *.
    + (* play *)
      unfold on_play, bind in *.
      change (setIsPlaying true s1)
        with (Ret tt, set_isPlaying true s1, [ESetIsPlaying true]) in *.
      cbv iota beta in *.
      destruct (animate data (set_isPlaying true s1)) as [[r s2] l2] eqn:Hanim.
      unfold log_of, state_of in *. cbn [fst snd] in *.
      apply elem_of_cons in Hin as [Hin|Hin]; [discriminate Hin|].
      specialize (Hgen (set_isPlaying true s1) data Hv1 Ha1 Harr).
      rewrite Hanim in Hgen. apply Hgen. exact Hin.
    + rewrite on_pause_run in Hin. unfold log_of, cancel_log in Hin. cbn [snd] in Hin.
      destruct (animationFrameRef s1) as [[|?]|]; in_log Hin.
    + rewrite on_ended_run in Hin. unfold log_of, cancel_log in Hin. cbn [snd] in Hin.
      destruct (animationFrameRef s1) as [[|?]|]; in_log Hin.
  - destruct (bool_decide (h ∈ frames (browser s))); [|discriminate].
    injection Hstep as <- <-. unfold exec in *. cbn [fst snd] in *.
    apply Hgen; auto.
Qed.

(** ** Arrays are written once *)

Lemma arrays_detached s : arrays (browser (detached s)) = arrays (browser s).
Proof.
  destruct s as [ad ip cr ar sr fr er ur w aw]. destruct er, sr, ar; reflexivity.
Qed.

Lemma arrays_released closed s : arrays (browser (released closed s)) = arrays (browser s).
Proof.
  destruct s as [ad ip cr ar sr fr er ur w aw].
  destruct closed, fr as [[|h]|]; reflexivity.
Qed.

Lemma arrays_rebuilt b allowed s : arrays (browser (rebuilt b allowed s)) = arrays (browser s).
Proof.
  destruct s as [ad ip cr ar sr fr er ur w aw]. destruct ur, allowed; reflexivity.
Qed.

Lemma arrays_cancelled s : arrays (browser (cancelled s)) = arrays (browser s).
Proof. unfold cancelled. destruct (animationFrameRef s) as [[|h]|]; reflexivity. Qed.

Lemma arrays_animate data s :
  ∃ ext, arrays (browser (state_of (animate data s))) = arrays (browser s) ++ ext.
Proof.
  rewrite animate_run. destruct (analyserRef s).
  - eexists [_]. reflexivity.
  - exists []. rewrite app_nil_r. reflexivity.
Qed.

Lemma arrays_listener sig data s :
  ∃ ext, arrays (browser (state_of (listener sig data s))) = arrays (browser s) ++ ext.
Proof.
  destruct sig; cbn [listener].
  - rewrite on_play_run. destruct (analyserRef s).
    + eexists [_]. reflexivity.
    + exists []. rewrite app_nil_r. reflexivity.
  - rewrite on_pause_run. exists []. rewrite app_nil_r.
    unfold state_of. cbn [fst snd]. apply (arrays_cancelled (set_isPlaying false s)).
  - rewrite on_ended_run. exists []. rewrite app_nil_r.
    unfold state_of. cbn [fst snd]. apply arrays_cancelled.
Qed.

Lemma arrays_toggle allowed s :
  arrays (browser (state_of (togglePlayback allowed s))) = arrays (browser s).
Proof.
  destruct (audioRef s) as [e|] eqn:He;
    [|rewrite (toggle_without_element allowed s He); reflexivity].
  destruct (isPlaying s) eqn:Hp;
    [rewrite (toggle_while_playing allowed s e He Hp); reflexivity|].
  destruct (bound_source s e) as [u|] eqn:Hb.
  { rewrite (toggle_bound_source allowed s e u He Hp Hb). destruct allowed; reflexivity. }
  destruct (currentAudioUrlRef s) as [u|] eqn:Hu.
  - rewrite (toggle_retained_url allowed s e u He Hp Hb Hu). destruct allowed; reflexivity.
  - rewrite (toggle_nothing_to_play allowed s e He Hp Hb Hu). reflexivity.
Qed.

Lemma arrays_handleAudioResponse p allowed s :
  ∃ ext, arrays (browser (state_of (handleAudioResponse p allowed s)))
         = arrays (browser s) ++ ext.
Proof.
  destruct p as [|b]; [exists []; rewrite app_nil_r; reflexivity|].
  destruct (String.eqb (blob_type b) octet_stream) eqn:Hty.
  - apply String.eqb_eq in Hty. rewrite (live_frame_run b allowed s Hty).
    eexists [_]. reflexivity.
  - apply String.eqb_neq in Hty. rewrite (handleAudioResponse_clip_run b allowed s Hty).
    exists []. rewrite app_nil_r.
    destruct (audioContextRef s) as [c|];
      [destruct (contexts (browser s) !! c) as [[]|]|];
      unfold state_of; cbn [fst snd];
      rewrite ?arrays_rebuilt, ?arrays_released; apply arrays_detached.
Qed.

Lemma arrays_step a s s' l' :
  step a s = Some (s', l') →
  ∃ ext, arrays (browser s') = arrays (browser s) ++ ext.
Proof.
  destruct a as [p allowed|allowed|ok|allowed|e data|e pos|h data]; cbn [step].
  - destruct (awaiting s); [discriminate|]. intros H. injection H as <- <-.
    apply arrays_handleAudioResponse.
  - destruct (awaiting s) as [[b c|e]|]; try discriminate.
    intros H. injection H as <- <-. unfold exec. cbn [fst].
    rewrite resume_after_close_run. unfold state_of. cbn [fst snd].
    rewrite arrays_rebuilt, arrays_released. exists []. rewrite app_nil_r. reflexivity.
  - destruct (awaiting s) as [[b c|e]|]; try discriminate.
    intros H. injection H as <- <-. exists []. rewrite app_nil_r.
    destruct ok; reflexivity.
  - intros H. injection H as <- <-. exists []. rewrite app_nil_r.
    apply arrays_toggle.
  - destruct (pop_event e s) as [[[sig b] s1]|] eqn:Hpop; [|discriminate].
    rewrite <- (pop_event_arrays e s sig b s1 Hpop).
    destruct b; intros H; injection H as <- <-.
    + apply arrays_listener.
    + exists []. rewrite app_nil_r. reflexivity.
  - unfold end_playback. destruct (elements (browser s) !! e) as [el|]; [|discriminate].
    destruct (el_paused el); [discriminate|].
    intros H. injection H as <- <-. exists []. rewrite app_nil_r. reflexivity.
  - destruct (bool_decide (h ∈ frames (browser s))); [|discriminate].
    intros H. injection H as <- <-.
    apply (arrays_animate data (upd_browser (upd_frames (filter (λ h', h' ≠ h))) s)).
Qed.

Lemma arrays_immutable a s s' l' i bytes :
  step a s = Some (s', l') →
  arrays (browser s) !! i = Some bytes → arrays (browser s') !! i = Some bytes.
Proof.
  intros Hstep Hi. destruct (arrays_step a s s' l' Hstep) as [ext ->].
  apply lookup_app_l_Some. exact Hi.
Qed.

(** C10.  In every reachable state [s] and for every task [a] from it.
    (1) A snapshot published by the sampling loop (in an animation frame or
    in the "play" listener) is an array that did not exist before the task,
    of exactly 128 bytes, half of the analyser's 256-sample transform.
    (2) No task changes an array that exists: a published array is never
    written again.  (3) A live-frame payload publishes its own bytes, so
    its snapshot is as long as the payload.  (4) The two sizes differ in a
    concrete run: 128 bytes from the sampler, 3 bytes from a live frame. *)
Theorem snapshot_sizes (acts : list Action) (s : St) (l : list Effect)
    (a : Action) (s' : St) (l' : list Effect) :
  run acts init = Some (s, l) → step a s = Some (s', l') →
  (sampler_task a → ∀ arr, ESetAudioData (Some arr) ∈ l' →
     arrays (browser s) !! arr = None ∧
     ∃ bytes, arrays (browser s') !! arr = Some bytes ∧ length bytes = 128 ∧
              snapshot s' = Some bytes) ∧
  (∀ an, analyserRef s = Some an → frequencyBinCount (browser s) an = 128) ∧
  (∀ i bytes, arrays (browser s) !! i = Some bytes →
     arrays (browser s') !! i = Some bytes) ∧
  (∀ b allowed, a = Submit (Present b) allowed → blob_type b = octet_stream →
     snapshot s' = Some (blob_bytes b) ∧
     length <$> snapshot s' = Some (length (blob_bytes b))) ∧
  (∃ s1 l1 s2 l2,
     run first_sample_trace init = Some (s1, l1) ∧
     step (Submit (Present frame3) true) s1 = Some (s2, l2) ∧
     length <$> snapshot s1 = Some 128 ∧ length <$> snapshot s2 = Some 3).
Proof.
  intros Hrun Hstep.
  destruct (Inv_reachable acts s l Hrun) as [ph Hsh].
  split; [|split; [|split; [|split]]].
  - intros Htask arr Hin.
    destruct (sampler_publication ph _ a s s' l' arr Hsh Hstep Htask Hin)
      as (Hfresh & bytes & Hb & Hlen & Had).
    split; [exact Hfresh|]. exists bytes. split; [exact Hb|]. split; [exact Hlen|].
    unfold snapshot. rewrite Had. exact Hb.
  - intros an Han. unfold frequencyBinCount.
    rewrite (shaped_analyser ph _ s an Hsh Han). reflexivity.
  - intros i bytes. apply (arrays_immutable a s s' l'). exact Hstep.
  - intros b allowed -> Hty. cbn [step] in Hstep.
    destruct (awaiting s); [discriminate|]. injection Hstep as <- <-.
    unfold exec. cbn [fst]. rewrite (live_frame_snapshot b allowed s Hty).
    split; reflexivity.
  - eexists _, _, _, _. split; [vm_compute; reflexivity|].
    split; [vm_compute; reflexivity|]. split; reflexivity.
Qed.

Lemma snapshot_sizes_witness :
  ∃ s l s' l',
    run [Submit (Present clipA) true; PlaySettled true] init = Some (s, l) ∧
    step (Deliver 0 [Byte.x07]) s = Some (s', l') ∧
    ∃ bytes, arrays (browser s') !! 0 = Some bytes ∧ length bytes = 128 ∧
             snapshot s' = Some bytes.
Proof.
  eexists _, _, _, _.
  assert (Hrun : run [Submit (Present clipA) true; PlaySettled true] init = Some (_, _))
    by (vm_compute; reflexivity).
  split; [exact Hrun|].
  match goal with
  | |- step ?a ?s = _ ∧ _ =>
      assert (Hstep : step a s = Some (_, _)) by (vm_compute; reflexivity)
  end.
  split; [exact Hstep|].
  refine (proj2 (proj1 (snapshot_sizes _ _ _ _ _ _ Hrun Hstep) I 0 _)).
  rewrite !elem_of_cons. auto 10.
Defined.

(** * Further properties *)

(** ** The transcript *)

Lemma receive_all_snoc calls call c :
  receive_all (calls ++ [call]) c =
  handleTranscriptReceived call.1.1 call.1.2 call.2 (receive_all calls c).
Proof. unfold receive_all. rewrite foldl_app. reflexivity. Qed.

Lemma receive_all_appends calls c :
  transcript (receive_all calls c) =
    transcript c ++ ((λ call, mkEntry call.1.2 call.2) <$> calls) ∧
  messages (receive_all calls c) =
    messages c ++ ((λ call, mkMessage call.1.1 (role_of call.2) call.1.2) <$> calls).
Proof.
  induction calls as [|call calls IH] using rev_ind.
  - cbn. rewrite !app_nil_r. split; reflexivity.
  - rewrite receive_all_snoc, !fmap_app. destruct IH as [IH1 IH2].
    unfold handleTranscriptReceived. cbn [transcript messages].
    rewrite IH1, IH2, <- !app_assoc. destruct call as [[now t] []]; split; reflexivity.
Qed.

(** X1.  [handleTranscriptReceived] only appends: after any sequence of
    calls the transcript and the chat history are the earlier ones followed
    by one entry and one message per call, in call order.  When the two
    lists agreed before (same texts, roles matching the speakers), they
    still agree: same length, message [i] has the text of entry [i] and the
    role assistant for AI, user for Human. *)
Theorem transcript_and_messages_in_step
    (calls : list (string * string * Speaker)) (c : Chat) :
  msg_content <$> messages c = text <$> transcript c →
  msg_role <$> messages c = (λ e, role_of (speaker e)) <$> transcript c →
  let c' := receive_all calls c in
  transcript c' = transcript c ++ ((λ call, mkEntry call.1.2 call.2) <$> calls) ∧
  messages c' =
    messages c ++ ((λ call, mkMessage call.1.1 (role_of call.2) call.1.2) <$> calls) ∧
  length (messages c') = length (transcript c') ∧
  msg_content <$> messages c' = text <$> transcript c' ∧
  msg_role <$> messages c' = (λ e, role_of (speaker e)) <$> transcript c'.
Proof.
  intros Hc Hr c'. destruct (receive_all_appends calls c) as [Ht Hm]. subst c'.
  split; [exact Ht|]. split; [exact Hm|].
  assert (Hcont : msg_content <$> messages (receive_all calls c)
                  = text <$> transcript (receive_all calls c)).
  { rewrite Ht, Hm, !fmap_app, Hc, <- !list_fmap_compose. reflexivity. }
  split; [|split; [exact Hcont|]].
  - apply (f_equal length) in Hcont. rewrite !length_fmap in Hcont. exact Hcont.
  - rewrite Ht, Hm, !fmap_app, Hr, <- !list_fmap_compose. reflexivity.
Qed.

Lemma transcript_and_messages_in_step_witness :
  msg_role <$> messages (receive_all
     [("1"%string, "hello"%string, Human); ("2"%string, "hi"%string, AI)]
     (mkChat [] [])) = [user; assistant].
Proof.
  exact (proj2 (proj2 (proj2 (proj2
    (transcript_and_messages_in_step
       [("1"%string, "hello"%string, Human); ("2"%string, "hi"%string, AI)]
       (mkChat [] []) eq_refl eq_refl))))).
Defined.

(** ** Animation frames *)

Lemma fv_detached s : frame_view (detached s) = frame_view s.
Proof.
  destruct s as [ad ip cr ar sr fr er ur w aw]. destruct er, sr, ar; reflexivity.
Qed.

Lemma fv_released closed s : frame_view (released closed s) = frame_view (cancelled s).
Proof.
  destruct s as [ad ip cr ar sr fr er ur w aw].
  destruct closed, fr as [[|h]|]; reflexivity.
Qed.

Lemma fv_rebuilt b allowed s : frame_view (rebuilt b allowed s) = frame_view s.
Proof.
  destruct s as [ad ip cr ar sr fr er ur w aw]. destruct ur, allowed; reflexivity.
Qed.

Lemma fv_cancelled_congr s1 s :
  frame_view s1 = frame_view s → frame_view (cancelled s1) = frame_view (cancelled s).
Proof.
  intros H. unfold frame_view, cancelled in *. injection H as H1 H2 H3.
  destruct (animationFrameRef s) as [[|h]|] eqn:E,
           (animationFrameRef s1) as [[|h1]|] eqn:E1;
    simplify_eq; cbn; rewrite ?H1, ?H2, ?E, ?E1; reflexivity.
Qed.

Lemma fv_toggle allowed s :
  frame_view (state_of (togglePlayback allowed s)) = frame_view s.
Proof.
  destruct (audioRef s) as [e|] eqn:He;
    [|rewrite (toggle_without_element allowed s He); reflexivity].
  destruct (isPlaying s) eqn:Hp;
    [rewrite (toggle_while_playing allowed s e He Hp); reflexivity|].
  destruct (bound_source s e) as [u|] eqn:Hb.
  { rewrite (toggle_bound_source allowed s e u He Hp Hb). destruct allowed; reflexivity. }
  destruct (currentAudioUrlRef s) as [u|] eqn:Hu.
  - rewrite (toggle_retained_url allowed s e u He Hp Hb Hu). destruct allowed; reflexivity.
  - rewrite (toggle_nothing_to_play allowed s e He Hp Hb Hu). reflexivity.
Qed.

Lemma fv_pop_event e s sig b s1 :
  pop_event e s = Some (sig, b, s1) → frame_view s1 = frame_view s.
Proof.
  unfold pop_event. destruct (elements (browser s) !! e) as [el|]; [|discriminate].
  destruct (el_events el); [discriminate|]. intros H. injection H as _ _ <-. reflexivity.
Qed.

Lemma pop_event_head e s sig b s1 :
  pop_event e s = Some (sig, b, s1) →
  ∃ el rest, elements (browser s) !! e = Some el ∧ el_events el = sig :: rest.
Proof.
  unfold pop_event. destruct (elements (browser s) !! e) as [el|]; [|discriminate].
  destruct (el_events el) as [|sig' rest] eqn:Hev; [discriminate|].
  intros H. injection H as <- _ _. eauto.
Qed.

Lemma fv_handleAudioResponse p allowed s :
  frame_view (state_of (handleAudioResponse p allowed s)) = frame_view s ∨
  frame_view (state_of (handleAudioResponse p allowed s)) = frame_view (cancelled s).
Proof.
  destruct p as [|b]; [left; reflexivity|].
  destruct (String.eqb (blob_type b) octet_stream) eqn:Hty.
  - apply String.eqb_eq in Hty. rewrite (live_frame_run b allowed s Hty). left. reflexivity.
  - apply String.eqb_neq in Hty. rewrite (handleAudioResponse_clip_run b allowed s Hty).
    destruct (audioContextRef s) as [c|];
      [destruct (contexts (browser s) !! c) as [[]|]|];
      unfold state_of; cbn [fst snd]; try (left; apply fv_detached).
    right. rewrite fv_rebuilt, fv_released. apply fv_cancelled_congr, fv_detached.
Qed.

(** How a task moves the frame machinery: not at all; by cancelling the
    recorded frame; by running a pending frame, with or without a new
    request; or by a request from the "play" listener. *)
Lemma step_frames a s s' l' :
  step a s = Some (s', l') →
  frame_view s' = frame_view s ∨
  frame_view s' = frame_view (cancelled s) ∨
  (∃ h, h ∈ frames (browser s) ∧
        (frame_view s' = ticked h (frame_view s) ∨
         frame_view s' = requested (ticked h (frame_view s)))) ∨
  (starts_loop a s ∧ frame_view s' = requested (frame_view s)).
Proof.
  destruct a as [p allowed|allowed|ok|allowed|e data|e pos|h data]; cbn [step].
  - destruct (awaiting s); [discriminate|]. intros H. injection H as <- <-.
    unfold exec. cbn [fst].
    destruct (fv_handleAudioResponse p allowed s) as [H|H]; auto.
  - destruct (awaiting s) as [[b c|e]|]; try discriminate.
    intros H. injection H as <- <-. unfold exec. cbn [fst].
    rewrite resume_after_close_run. unfold state_of. cbn [fst snd].
    right. left. rewrite fv_rebuilt, fv_released.
    apply fv_cancelled_congr. reflexivity.
  - destruct (awaiting s) as [[b c|e]|]; try discriminate.
    intros H. injection H as <- <-. left. destruct ok; reflexivity.
  - intros H. injection H as <- <-. left. apply fv_toggle.
  - destruct (pop_event e s) as [[[sig b] s1]|] eqn:Hpop; [|discriminate].
    pose proof (fv_pop_event e s sig b s1 Hpop) as Hfv.
    destruct (pop_event_head e s sig b s1 Hpop) as (el & rest & Hel & Hev).
    destruct b; intros H; injection H as <- <-; [|left; exact Hfv].
    unfold exec. cbn [fst]. destruct sig; cbn [listener].
    + rewrite on_play_run. destruct (analyserRef s1) as [an|].
      * right. right. right. split; [exists el, rest; auto|].
        unfold state_of. cbn [fst snd]. rewrite <- Hfv. reflexivity.
      * left. exact Hfv.
    + rewrite on_pause_run. right. left. unfold state_of. cbn [fst snd].
      rewrite <- (fv_cancelled_congr (set_isPlaying false s1) s Hfv).
      unfold cancelled. cbn [animationFrameRef set_isPlaying].
      destruct (animationFrameRef s1) as [[|h]|]; reflexivity.
    + rewrite on_ended_run. right. left. unfold state_of. cbn [fst snd].
      rewrite <- (fv_cancelled_congr s1 s Hfv).
      unfold cancelled. destruct (animationFrameRef s1) as [[|h]|]; reflexivity.
  - unfold end_playback. destruct (elements (browser s) !! e) as [el|]; [|discriminate].
    destruct (el_paused el); [discriminate|].
    intros H. injection H as <- <-. left. reflexivity.
  - destruct (bool_decide (h ∈ frames (browser s))) eqn:Hin; [|discriminate].
    apply bool_decide_eq_true in Hin.
    intros H. injection H as <- <-. unfold exec. cbn [fst].
    right. right. left. exists h. split; [exact Hin|].
    rewrite animate_run.
    destruct (analyserRef _) as [an|]; [right|left]; reflexivity.
Qed.

Lemma fresh_ticked h v : fresh_view v → fresh_view (ticked h v).
Proof.
  intros (H1 & H2 & H3 & H4). unfold fresh_view, ticked. cbn.
  repeat split; auto; try (apply H4; assumption).
  - apply H2. eapply list_elem_of_filter; eassumption.
  - apply H2. eapply list_elem_of_filter; eassumption.
  - apply list.NoDup_filter. exact H3.
Qed.

Lemma fresh_requested v : fresh_view v → fresh_view (requested v).
Proof.
  intros (H1 & H2 & H3 & H4). unfold fresh_view, requested. cbn.
  split; [lia|]. split; [|split].
  - intros h Hin. apply elem_of_app in Hin as [Hin|Hin].
    + specialize (H2 h Hin). lia.
    + apply list_elem_of_singleton in Hin. lia.
  - apply list.NoDup_app. split; [exact H3|]. split; [|apply NoDup_singleton].
    intros h Hin Hin'. apply list_elem_of_singleton in Hin'. specialize (H2 h Hin). lia.
  - intros h Hh. injection Hh as <-. lia.
Qed.

Lemma fresh_cancelled s :
  fresh_view (frame_view s) → fresh_view (frame_view (cancelled s)).
Proof.
  intros Hf. unfold cancelled.
  destruct (animationFrameRef s) as [[|h]|] eqn:Hr; [exact Hf| |exact Hf].
  destruct Hf as (H1 & H2 & H3 & H4). unfold fresh_view, frame_view in *. cbn in *.
  split; [exact H1|]. split; [|split].
  - intros h' Hin. apply H2. eapply list_elem_of_filter; eassumption.
  - apply list.NoDup_filter. exact H3.
  - discriminate.
Qed.

Lemma fresh_step a s s' l' :
  step a s = Some (s', l') → fresh_view (frame_view s) → fresh_view (frame_view s').
Proof.
  intros Hstep Hf.
  destruct (step_frames a s s' l' Hstep)
    as [-> | [-> | [(h & _ & [-> | ->]) | [_ ->]]]]; auto.
  - apply fresh_cancelled. exact Hf.
  - apply fresh_ticked. exact Hf.
  - apply fresh_requested, fresh_ticked. exact Hf.
  - apply fresh_requested. exact Hf.
Qed.

Lemma fresh_run acts : ∀ s s' l,
  fresh_view (frame_view s) → run acts s = Some (s', l) → fresh_view (frame_view s').
Proof.
  induction acts as [|a acts IH]; intros s s' l Hf Hrun; cbn in Hrun.
  - injection Hrun as <- <-. exact Hf.
  - destruct (step a s) as [[s1 l1]|] eqn:Hstep; [|discriminate].
    destruct (run acts s1) as [[s2 l2]|] eqn:Hrest; [|discriminate].
    injection Hrun as <- <-. eapply IH; [|exact Hrest]. eapply fresh_step; eassumption.
Qed.

Lemma fresh_init : fresh_view (frame_view init).
Proof.
  unfold fresh_view, frame_view. cbn. repeat split; try lia; try discriminate.
  - apply elem_of_nil in H. destruct H.
  - apply elem_of_nil in H. destruct H.
  - apply NoDup_nil_2.
Qed.

(** X2.  In every reachable state the animation-frame ids are sound: the
    pending ones are distinct, positive and below the browser's counter, and
    so is the recorded one.  Hence the truthiness test on
    [animationFrameRef.current] never mistakes a recorded id for "none":
    whenever an id is recorded, the cancellation code cancels it and empties
    the ref. *)
Theorem frame_ids_sound (acts : list Action) (s : St) (l : list Effect) :
  run acts init = Some (s, l) →
  frames_fresh s ∧
  ∀ h, animationFrameRef s = Some h →
    cancel_pending_frame s =
      (Ret tt,
       set_animationFrameRef None (upd_browser (upd_frames (filter (λ h', h' ≠ h))) s),
       [ECancelFrame h]) ∧
    h ∉ frames (browser (state_of (cancel_pending_frame s))).
Proof.
  intros Hrun. pose proof (fresh_run acts init s l fresh_init Hrun) as Hf.
  split; [exact Hf|]. intros h Hh.
  destruct Hf as (_ & _ & _ & H4). specialize (H4 h Hh). cbn in H4.
  destruct h as [|h]; [lia|].
  rewrite cancel_pending_frame_run. unfold cancelled, cancel_log. rewrite Hh.
  split; [reflexivity|].
  unfold state_of. cbn. rewrite list_elem_of_filter. intros [Hne _]. apply Hne. reflexivity.
Qed.

Lemma frame_ids_sound_witness :
  ∃ s l, run playing_trace init = Some (s, l) ∧ frames_fresh s.
Proof.
  eexists _, _.
  assert (Hrun : run playing_trace init = Some (_, _)) by (vm_compute; reflexivity).
  split; [exact Hrun|]. exact (proj1 (frame_ids_sound playing_trace _ _ Hrun)).
Defined.

(** ** A single sampling loop *)

Lemma tracked_filter_all s h :
  tracked_view (frame_view s) → h ∈ frames (browser s) →
  filter (λ h', h' ≠ h) (frames (browser s)) = [].
Proof.
  intros Htr Hin.
  destruct (filter (λ h', h' ≠ h) (frames (browser s))) as [|h1 fs] eqn:Hf; [reflexivity|].
  assert (H1 : h1 ∈ filter (λ h', h' ≠ h) (frames (browser s))) by (rewrite Hf; left).
  apply list_elem_of_filter in H1 as [Hne H1].
  destruct (Htr h Hin) as [Hr _]. destruct (Htr h1 H1) as [Hr1 _].
  cbn in Hr, Hr1. congruence.
Qed.

Lemma tracked_cancelled s :
  tracked_view (frame_view s) → frames (browser (cancelled s)) = [].
Proof. intros Htr. apply cancelled_no_frames. exact Htr. Qed.

Lemma tracked_step a s s' l' :
  step a s = Some (s', l') →
  fresh_view (frame_view s) → tracked_view (frame_view s) →
  (starts_loop a s → frames (browser s) = []) →
  tracked_view (frame_view s').
Proof.
  intros Hstep Hf Htr Hq.
  assert (Hone : ∀ v, v.1.1 = [] → 1 ≤ v.1.2 → tracked_view (requested v)).
  { intros [[fs nf] r] Hfs Hnf h Hin. cbn in *. subst fs.
    apply list_elem_of_singleton in Hin. subst h. split; [reflexivity|lia]. }
  destruct (step_frames a s s' l' Hstep)
    as [H0 | [Hc | [(h & Hin & [H0 | H0]) | [Hs H0]]]]; try rewrite H0.
  - exact Htr.
  - intros h Hin. unfold frame_view in Hc. injection Hc as H1 _ _.
    cbn in Hin. rewrite H1, (tracked_cancelled s Htr) in Hin.
    apply elem_of_nil in Hin. destruct Hin.
  - intros h' Hin'. cbn in Hin'. rewrite (tracked_filter_all s h Htr Hin) in Hin'.
    apply elem_of_nil in Hin'. destruct Hin'.
  - apply Hone; [apply (tracked_filter_all s h Htr Hin)|exact (proj1 Hf)].
  - apply Hone; [apply Hq, Hs|exact (proj1 Hf)].
Qed.

Lemma tracked_run acts : ∀ s s' l,
  fresh_view (frame_view s) → tracked_view (frame_view s) → starts_quiet acts s →
  run acts s = Some (s', l) → tracked_view (frame_view s').
Proof.
  induction acts as [|a acts IH]; intros s s' l Hf Htr Hq Hrun; cbn in Hrun.
  - injection Hrun as <- <-. exact Htr.
  - destruct Hq as [Hq1 Hq2].
    destruct (step a s) as [[s1 l1]|] eqn:Hstep; [|discriminate].
    destruct (run acts s1) as [[s2 l2]|] eqn:Hrest; [|discriminate].
    injection Hrun as <- <-. eapply (IH s1); [| |exact Hq2|exact Hrest].
    + eapply fresh_step; eassumption.
    + eapply tracked_step; eassumption.
Qed.

(** X3.  In a run in which a "play" event is only ever delivered while no
    animation frame is pending, there is a single sampling loop: every
    pending frame is the recorded one, so at most one is pending.
    Cancellation is then exact: after the "pause" or the "ended" listener
    no frame is pending and no animation frame can run. *)
Theorem single_loop_cancels_exactly (acts : list Action) (s : St) (l : list Effect) :
  run acts init = Some (s, l) → starts_quiet acts init →
  frames_tracked s ∧
  length (frames (browser s)) ≤ 1 ∧
  ∀ sig data, sig ≠ SigPlay →
    frames (browser (state_of (listener sig data s))) = [] ∧
    ∀ h d, step (Tick h d) (state_of (listener sig data s)) = None.
Proof.
  intros Hrun Hq.
  pose proof (fresh_run acts init s l fresh_init Hrun) as Hf.
  assert (Htr : tracked_view (frame_view s)).
  { apply (tracked_run acts init s l); auto using fresh_init.
    intros h Hin. apply elem_of_nil in Hin. destruct Hin. }
  split; [exact Htr|]. split.
  - destruct (frames (browser s)) as [|h1 [|h2 fs]] eqn:Hfs; cbn; try lia.
    destruct Hf as (_ & _ & Hnd & _). cbn in Hnd. rewrite Hfs in Hnd.
    destruct (Htr h1) as [H1 _]; [cbn; rewrite Hfs; left|].
    destruct (Htr h2) as [H2 _]; [cbn; rewrite Hfs; right; left|].
    cbn in H1, H2. assert (h1 = h2) by congruence. subst h2.
    apply NoDup_cons_1_1 in Hnd. destruct Hnd. left.
  - intros sig data Hsig.
    assert (Hno : frames (browser (state_of (listener sig data s))) = []).
    { destruct sig; [congruence| |]; cbn [listener].
      - rewrite on_pause_run. unfold state_of. cbn [fst snd].
        apply (cancelled_no_frames (set_isPlaying false s)). exact Htr.
      - rewrite on_ended_run. unfold state_of. cbn [fst snd].
        apply cancelled_no_frames. exact Htr. }
    split; [exact Hno|]. intros h d. unfold step. rewrite Hno.
    rewrite bool_decide_eq_false_2; [reflexivity|]. apply not_elem_of_nil.
Qed.

Lemma single_loop_cancels_exactly_witness :
  ∃ s l, run playing_trace init = Some (s, l) ∧
         frames (browser (state_of (listener SigPause [] s))) = [].
Proof.
  eexists _, _.
  assert (Hrun : run playing_trace init = Some (_, _)) by (vm_compute; reflexivity).
  split; [exact Hrun|].
  refine (proj1 (proj2 (proj2 (single_loop_cancels_exactly playing_trace _ _ Hrun _))
            SigPause [] _)).
  - vm_compute. repeat split; intros (el & rest & H1 & H2); try discriminate.
  - discriminate.
Defined.

(** ** Calls in reachable states *)

Lemma awaiting_rebuilt b allowed s :
  awaiting (rebuilt b allowed s) =
  if allowed then Some (AwaitPlay (length (elements (browser s)))) else awaiting s.
Proof.
  destruct s as [ad ip cr ar sr fr er ur w aw]. destruct ur, allowed; reflexivity.
Qed.

(** X4.  In every reachable state with no call pending, a call of
    [handleAudioResponse] with a Blob returns normally; [close()] is never
    called on a context that is not running.  A live frame leaves no call
    pending; the first clip is built at once and the call waits for
    [play()] if the request was accepted; any later clip suspends on the
    [close()] of the previous context. *)
Theorem submission_returns_normally (acts : list Action) (s : St) (l : list Effect)
    (b : Blob) (allowed : bool) :
  run acts init = Some (s, l) → awaiting s = None →
  let r := handleAudioResponse (Present b) allowed s in
  res_of r = Ret tt ∧
  (blob_type b = octet_stream → awaiting (state_of r) = None) ∧
  (blob_type b ≠ octet_stream → accepted acts = [] →
     awaiting (state_of r) = if allowed then Some (AwaitPlay 0) else None) ∧
  (blob_type b ≠ octet_stream → accepted acts ≠ [] →
     ∃ c, awaiting (state_of r) = Some (AwaitClose b c) ∧
          audioContextRef s = Some c ∧
          contexts (browser (state_of r)) !! c = Some Closing).
Proof.
  intros Hrun Haw r. subst r.
  destruct (Inv_reachable acts s l Hrun) as [ph Hsh].
  pose proof (shaped_awaiting ph _ s Hsh) as Hph. rewrite Haw in Hph.
  destruct (String.eqb (blob_type b) octet_stream) eqn:Hty.
  - apply String.eqb_eq in Hty. rewrite (live_frame_run b allowed s Hty).
    split; [reflexivity|]. split; [intros _; exact Haw|]. split; intros Hn; contradiction.
  - apply String.eqb_neq in Hty. rewrite (handleAudioResponse_clip_run b allowed s Hty).
    destruct Hph as [-> | [j ->]].
    + assert (Hc : audioContextRef s = None).
      { destruct Hsh as (_ & _ & Hv). apply (f_equal v_context) in Hv. exact Hv. }
      assert (Hel : elements (browser s) = []).
      { destruct Hsh as (_ & _ & Hv). apply (f_equal v_bound) in Hv. cbn in Hv.
        destruct (elements (browser s)); [reflexivity|discriminate]. }
      assert (Hacc : accepted acts = []) by apply Hsh.
      rewrite Hc. unfold res_of, state_of. cbn [fst snd].
      split; [reflexivity|]. split; [intros Hn; contradiction|]. split.
      * intros _ _. rewrite awaiting_rebuilt.
        destruct s as [ad ip cr ar sr fr er ur [els cs ans srcs us fs nf arrs] aw].
        cbn in Hel, Haw. subst els aw. destruct er, sr, ar, fr as [[|h]|], allowed; reflexivity.
      * intros _ Hne. contradiction.
    + destruct (shaped_loaded_context _ j s Hsh) as [Hc Hrun'].
      rewrite Hc, Hrun'. unfold res_of, state_of. cbn [fst snd].
      split; [reflexivity|]. split; [intros Hn; contradiction|]. split.
      * intros _ Hacc. destruct Hsh as (old & bj & Hcl & _). rewrite Hacc in Hcl.
        destruct old; discriminate Hcl.
      * intros _ _. exists j. split; [reflexivity|]. split; [reflexivity|].
        destruct (next_call_suspends s j _ b allowed Hsh Haw Hty) as (_ & _ & _ & H).
        exact H.
Qed.

Lemma submission_returns_normally_witness :
  ∃ s l, run playing_trace init = Some (s, l) ∧
         res_of (handleAudioResponse (Present clipB) true s) = Ret tt.
Proof.
  eexists _, _.
  assert (Hrun : run playing_trace init = Some (_, _)) by (vm_compute; reflexivity).
  split; [exact Hrun|].
  exact (proj1 (submission_returns_normally playing_trace _ _ clipB true Hrun eq_refl)).
Defined.

(** ** Before the first clip *)

Lemma cold_step a s s' l' :
  cold s → step a s = Some (s', l') → accepted_clip a = [] →
  (live_frame a = [] → s' = s) ∧
  (∀ b, live_frame a = [b] →
     cold s' ∧ snapshot s' = Some (blob_bytes b) ∧ isPlaying s' = true).
Proof.
  intros (Hg & Hfr & Haw) Hstep Hacc.
  assert (Hel : elements (browser s) = [])
    by (apply (f_equal (λ g, g.2.1.1.1.1)) in Hg; exact Hg).
  assert (Her : audioRef s = None)
    by (apply (f_equal (λ g, g.1.1.2)) in Hg; exact Hg).
  destruct a as [p allowed|allowed|ok|allowed|e data|e pos|h data];
    cbn [step accepted_clip live_frame] in *.
  - rewrite Haw in Hstep. injection Hstep as <- <-. unfold exec. cbn [fst].
    destruct p as [|b]; [split; [reflexivity|discriminate]|].
    destruct (String.eqb (blob_type b) octet_stream) eqn:Hty; [|discriminate Hacc].
    apply String.eqb_eq in Hty. split; [discriminate|].
    intros b' Hb. injection Hb as <-.
    split; [|split].
    + rewrite (live_frame_run b allowed s Hty). repeat split; assumption.
    + apply live_frame_snapshot. exact Hty.
    + rewrite (live_frame_run b allowed s Hty). reflexivity.
  - rewrite Haw in Hstep. discriminate.
  - rewrite Haw in Hstep. discriminate.
  - injection Hstep as <- <-. unfold exec. cbn [fst].
    rewrite (toggle_without_element allowed s Her).
    split; [reflexivity|discriminate].
  - unfold pop_event in Hstep. rewrite Hel in Hstep. discriminate.
  - unfold end_playback in Hstep. rewrite Hel in Hstep. discriminate.
  - rewrite Hfr in Hstep. discriminate.
Qed.

Lemma cold_run acts : ∀ s s' l,
  cold s → run acts s = Some (s', l) → accepted acts = [] →
  cold s' ∧
  snapshot s' = match list.last (live_frames acts) with
                | Some b => Some (blob_bytes b)
                | None => snapshot s
                end ∧
  isPlaying s' = match live_frames acts with
                 | [] => isPlaying s
                 | _ => true
                 end.
Proof.
  induction acts as [|a acts IH]; intros s s' l Hcold Hrun Hacc; cbn in Hrun.
  - injection Hrun as <- <-. repeat split; apply Hcold.
  - destruct (step a s) as [[s1 l1]|] eqn:Hstep; [|discriminate].
    destruct (run acts s1) as [[s2 l2]|] eqn:Hrest; [|discriminate].
    injection Hrun as <- <-. cbn [accepted live_frames] in *.
    apply app_eq_nil in Hacc as [Ha Hacc].
    destruct (cold_step a s s1 l1 Hcold Hstep Ha) as [Hsame Hlive].
    assert (Hcase : live_frame a = [] ∨ ∃ b, live_frame a = [b]).
    { destruct a as [[|b] ?| | | | | |]; cbn; auto.
      destruct (String.eqb _ _); eauto. }
    destruct Hcase as [Hn | [b Hb]].
    + rewrite Hn. cbn [app]. rewrite (Hsame Hn) in Hrest. exact (IH s s2 _ Hcold Hrest Hacc).
    + rewrite Hb. destruct (Hlive b Hb) as (Hc1 & Hs1 & Hp1).
      destruct (IH s1 s2 _ Hc1 Hrest Hacc) as (Hc2 & Hs2 & Hp2).
      split; [exact Hc2|]. cbn [app]. split.
      * rewrite Hs2. destruct (live_frames acts) as [|b1 rest] eqn:Hl; [exact Hs1|].
        change (list.last (b :: b1 :: rest)) with (list.last (b1 :: rest)).
        destruct (list.last (b1 :: rest)) eqn:Hlast; [reflexivity|].
        apply last_None in Hlast. discriminate Hlast.
      * rewrite Hp2. destruct (live_frames acts); [exact Hp1|reflexivity].
Qed.

(** X5.  As long as no clip has been submitted, only live frames matter:
    the graph manager's state stays as at mount, [togglePlayback] does
    nothing, the published snapshot is the body of the last live frame, and
    the status is playing from the first live frame on; no toggle brings it
    back to not playing. *)
Theorem cold_start_follows_live_frames (acts : list Action) (s : St) (l : list Effect) :
  run acts init = Some (s, l) → accepted acts = [] →
  cold s ∧
  (∀ allowed, togglePlayback allowed s = (Ret tt, s, [])) ∧
  snapshot s = blob_bytes <$> list.last (live_frames acts) ∧
  (isPlaying s = true ↔ live_frames acts ≠ []).
Proof.
  intros Hrun Hacc.
  assert (Hinit : cold init) by (repeat split).
  destruct (cold_run acts init s l Hinit Hrun Hacc) as (Hc & Hs & Hp).
  split; [exact Hc|]. split; [|split].
  - intros allowed. apply toggle_without_element.
    destruct Hc as (Hg & _). apply (f_equal (λ g, g.1.1.2)) in Hg. exact Hg.
  - rewrite Hs. destruct (list.last (live_frames acts)); reflexivity.
  - rewrite Hp. destruct (live_frames acts); cbn; split; try discriminate; auto.
Qed.

Lemma cold_start_follows_live_frames_witness :
  ∃ s l, run [Submit (Present frame3) true; Toggle true] init = Some (s, l) ∧
         isPlaying s = true ∧
         snapshot s = Some [Byte.x0a; Byte.x14; Byte.x1e].
Proof.
  eexists _, _.
  assert (Hrun : run [Submit (Present frame3) true; Toggle true] init = Some (_, _))
    by (vm_compute; reflexivity).
  split; [exact Hrun|].
  destruct (cold_start_follows_live_frames _ _ _ Hrun eq_refl) as (_ & _ & Hs & Hp).
  split; [apply Hp; discriminate | exact Hs].
Defined.

(** * Unmount *)

Lemma unmount_run s : res_of (unmount s) = Ret tt ∧ state_of (unmount s) = unmounted s.
Proof.
  destruct s as [ad ip cr ar sr fr er ur [els cs ans srcs us fs nf arrs] aw].
  unfold unmount, unmounted.
  destruct fr as [[|h]|], cr as [c|], ur as [u|]; unfold_code;
    try destruct (cs !! c) as [[| |]|]; split; reflexivity.
Qed.

Lemma unmounted_contexts s :
  contexts (browser (unmounted s)) =
  match audioContextRef s with
  | Some c =>
      match contexts (browser s) !! c with
      | Some Running => <[c := Closing]> (contexts (browser s))
      | _ => contexts (browser s)
      end
  | None => contexts (browser s)
  end.
Proof.
  destruct s as [ad ip cr ar sr fr er ur [els cs ans srcs us fs nf arrs] aw].
  unfold unmounted.
  destruct fr as [[|h]|], cr as [c|], ur as [u|]; unfold_code;
    try destruct (cs !! c) as [[| |]|]; reflexivity.
Qed.

Lemma unmounted_urls s :
  urls (browser (unmounted s)) =
  match currentAudioUrlRef s with
  | Some u => alter (λ o, mkURL (url_blob o) false) u (urls (browser s))
  | None => urls (browser s)
  end.
Proof.
  destruct s as [ad ip cr ar sr fr er ur [els cs ans srcs us fs nf arrs] aw].
  unfold unmounted.
  destruct fr as [[|h]|], cr as [c|], ur as [u|]; unfold_code;
    try destruct (cs !! c) as [[| |]|]; reflexivity.
Qed.

Lemma unmounted_frames s :
  frames (browser (unmounted s)) =
  match animationFrameRef s with
  | Some (S h) => filter (λ h', h' ≠ S h) (frames (browser s))
  | _ => frames (browser s)
  end.
Proof.
  destruct s as [ad ip cr ar sr fr er ur [els cs ans srcs us fs nf arrs] aw].
  unfold unmounted.
  destruct fr as [[|h]|], cr as [c|], ur as [u|]; unfold_code;
    try destruct (cs !! c) as [[| |]|]; reflexivity.
Qed.

Lemma unmounted_untouched s :
  refs (unmounted s) = refs s ∧
  elements (browser (unmounted s)) = elements (browser s) ∧
  analysers (browser (unmounted s)) = analysers (browser s) ∧
  sources (browser (unmounted s)) = sources (browser s) ∧
  awaiting (unmounted s) = awaiting s.
Proof.
  destruct s as [ad ip cr ar sr fr er ur [els cs ans srcs us fs nf arrs] aw].
  unfold unmounted, refs.
  destruct fr as [[|h]|], cr as [c|], ur as [u|]; unfold_code;
    try destruct (cs !! c) as [[| |]|]; repeat split; reflexivity.
Qed.

Lemma shaped_unmounted_counts ph clips s :
  shaped ph clips (graph_view s) (awaiting s) →
  live_contexts (unmounted s) = 0 ∧ live_urls (unmounted s) = 0.
Proof.
  intros Hsh. unfold live_contexts, live_urls.
  rewrite unmounted_contexts, unmounted_urls.
  destruct ph as [|j|j b]; cbn [shaped] in Hsh.
  - destruct Hsh as (_ & _ & Hv).
    pose proof (f_equal v_context Hv) as H1. pose proof (f_equal v_url Hv) as H2.
    pose proof (f_equal v_contexts Hv) as H3. pose proof (f_equal v_urls Hv) as H4.
    cbv beta iota delta [v_context v_url v_contexts v_urls graph_view] in H1, H2, H3, H4.
    rewrite H1, H2, H3, H4. split; reflexivity.
  - destruct Hsh as (old & bj & _ & Hlen & _ & Hv).
    pose proof (f_equal v_context Hv) as H1. pose proof (f_equal v_url Hv) as H2.
    pose proof (f_equal v_contexts Hv) as H3. pose proof (f_equal v_urls Hv) as H4.
    cbv beta iota delta [v_context v_url v_contexts v_urls graph_view] in H1, H2, H3, H4.
    rewrite H1, H2, H3, H4.
    rewrite (lookup_at_end _ _ j) by apply length_replicate.
    rewrite (insert_at_end _ _ _ j) by apply length_replicate.
    rewrite (alter_at_end _ _ _ j) by (rewrite length_fmap; exact Hlen).
    rewrite !list.filter_app, filter_closed, filter_revoked. split; reflexivity.
  - destruct Hsh as (old & bj & _ & Hlen & _ & Hv).
    pose proof (f_equal v_context Hv) as H1. pose proof (f_equal v_url Hv) as H2.
    pose proof (f_equal v_contexts Hv) as H3. pose proof (f_equal v_urls Hv) as H4.
    cbv beta iota delta [v_context v_url v_contexts v_urls graph_view] in H1, H2, H3, H4.
    rewrite H1, H2, H3, H4.
    rewrite (lookup_at_end _ _ j) by apply length_replicate.
    rewrite (alter_at_end _ _ _ j) by (rewrite length_fmap; exact Hlen).
    rewrite !list.filter_app, filter_closed, filter_revoked. split; reflexivity.
Qed.

(** X6.  The cleanup of the mount effect, run in any reachable state,
    returns normally (also while a call is suspended on [close()]: the
    rejected second [close()] is not awaited), and leaves no context running,
    no object URL live and the recorded frame not pending.  It assigns no
    ref, does not touch the audio element (a playing element is not paused)
    and disconnects no node. *)
Theorem unmount_releases (acts : list Action) (s : St) (l : list Effect) :
  run acts init = Some (s, l) →
  let r := unmount s in
  res_of r = Ret tt ∧
  live_contexts (state_of r) = 0 ∧
  live_urls (state_of r) = 0 ∧
  (∀ h, animationFrameRef s = Some h → h ∉ frames (browser (state_of r))) ∧
  refs (state_of r) = refs s ∧
  elements (browser (state_of r)) = elements (browser s) ∧
  connected_sources (state_of r) = connected_sources s.
Proof.
  intros Hrun r. subst r.
  destruct (unmount_run s) as [Hres Hst]. rewrite Hres, Hst.
  destruct (Inv_reachable acts s l Hrun) as [ph Hsh].
  destruct (shaped_unmounted_counts ph _ s Hsh) as [Hc Hu].
  destruct (unmounted_untouched s) as (Hr & He & _ & Hs & _).
  pose proof (fresh_run acts init s l fresh_init Hrun) as (_ & _ & _ & Hf).
  repeat split; try assumption.
  - intros h Hh. specialize (Hf h Hh). cbn in Hf.
    rewrite unmounted_frames, Hh. destruct h as [|h]; [lia|].
    rewrite list_elem_of_filter. intros [Hne _]. apply Hne. reflexivity.
  - unfold connected_sources. rewrite Hs. reflexivity.
Qed.

Lemma unmount_releases_witness :
  ∃ s l, run playing_trace init = Some (s, l) ∧
         live_contexts s = 1 ∧ live_contexts (state_of (unmount s)) = 0.
Proof.
  eexists _, _.
  assert (Hrun : run playing_trace init = Some (_, _)) by (vm_compute; reflexivity).
  split; [exact Hrun|]. split; [vm_compute; reflexivity|].
  exact (proj1 (proj2 (unmount_releases playing_trace _ _ Hrun))).
Defined.

(** * Overlapping calls *)

Lemma shaped_closing_refs clips j b s :
  shaped (PClosing j b) clips (graph_view s) (awaiting s) →
  audioContextRef s = Some j ∧ analyserRef s = None ∧ audioSourceRef s = None ∧
  audioRef s = Some j ∧ currentAudioUrlRef s = Some j ∧
  contexts (browser s) !! j = Some Closing.
Proof.
  intros (old & bj & _ & _ & _ & Hv).
  pose proof (f_equal v_context Hv) as H1. pose proof (f_equal v_analyser Hv) as H2.
  pose proof (f_equal v_source Hv) as H3. pose proof (f_equal v_element Hv) as H4.
  pose proof (f_equal v_url Hv) as H5. pose proof (f_equal v_contexts Hv) as H6.
  cbv beta iota delta
    [v_context v_analyser v_source v_element v_url v_contexts graph_view]
    in H1, H2, H3, H4, H5, H6.
  repeat split; try assumption.
  rewrite H6. apply lookup_at_end, length_replicate.
Qed.

(** X7.  A clip submitted while an earlier call is still suspended on
    [close()] is dropped: [cleanup] pauses the element again and then calls
    [close()] on the context that is already closing, so the call rejects
    with InvalidStateError.  Nothing else changes: no context, analyser,
    source or object URL is created or released, and the suspended call is
    still pending. *)
Theorem overlapping_clip_is_dropped (acts : list Action) (s : St) (l : list Effect)
    (b : Blob) (c : CtxId) (b' : Blob) (allowed : bool) :
  run acts init = Some (s, l) →
  awaiting s = Some (AwaitClose b c) →
  blob_type b' ≠ octet_stream →
  ∃ e, audioRef s = Some e ∧
       handleAudioResponse (Present b') allowed s =
         (Raise InvalidStateError, on_element e pause_element s, [EPause e]).
Proof.
  intros Hrun Haw Hty.
  destruct (Inv_reachable acts s l Hrun) as [ph Hsh].
  pose proof (shaped_awaiting ph _ s Hsh) as Hph. rewrite Haw in Hph. subst ph.
  destruct (shaped_closing_refs _ c b s Hsh) as (H1 & H2 & H3 & H4 & H5 & H6).
  exists c. split; [exact H4|].
  rewrite (handleAudioResponse_clip_run b' allowed s Hty), H1, H6.
  unfold detached, detach_log.
  destruct s as [ad ip cr ar sr fr er ur [els cs ans srcs us fs nf arrs] aw].
  cbn in H2, H3, H4. subst ar sr er. reflexivity.
Qed.

Lemma overlapping_clip_is_dropped_witness :
  ∃ s l, run [Submit (Present clipA) true; PlaySettled true;
              Submit (Present clipB) true] init = Some (s, l) ∧
         res_of (handleAudioResponse (Present clipA) true s) = Raise InvalidStateError.
Proof.
  eexists _, _.
  assert (Hrun : run [Submit (Present clipA) true; PlaySettled true;
                      Submit (Present clipB) true] init = Some (_, _))
    by (vm_compute; reflexivity).
  split; [exact Hrun|].
  destruct (overlapping_clip_is_dropped _ _ _ clipB 0 clipA true Hrun eq_refl)
    as (e & _ & Heq); [discriminate|].
  rewrite Heq. reflexivity.
Defined.

(** * Unmount while a call is suspended *)

Lemma resume_after_unmount_view b j allowed s :
  audioContextRef s = Some j → currentAudioUrlRef s = Some j →
  contexts (browser s) !! j = Some Closing →
  let resumed s := rebuilt b allowed (released (Some j) (close_resolved j (set_awaiting None s))) in
  graph_view (resumed (unmounted s)) = graph_view (resumed s) ∧
  awaiting (resumed (unmounted s)) = awaiting (resumed s).
Proof.
  destruct s as [ad ip cr ar sr fr er ur [els cs ans srcs us fs nf arrs] aw].
  cbn [audioContextRef currentAudioUrlRef contexts browser].
  intros -> -> Hc. unfold unmounted.
  cbn [audioContextRef contexts browser animationFrameRef]. rewrite Hc.
  destruct fr as [[|h]|], allowed; view_of_state;
    rewrite ?alter_idemp by reflexivity; split; reflexivity.
Qed.

(** X8.  Unmounting does not stop a call that is suspended on [close()]:
    the unmount cleanup runs (its own [close()] is rejected and dropped),
    and when the awaited [close()] resolves the call builds the graph of its
    clip all the same.  Afterwards a context is running again and an object
    URL is live, in a component whose unmount cleanup has already run. *)
Theorem unmount_does_not_stop_suspended_call (acts : list Action) (s : St)
    (l : list Effect) (b : Blob) (c : CtxId) (allowed : bool) :
  run acts init = Some (s, l) →
  awaiting s = Some (AwaitClose b c) →
  let s1 := state_of (unmount s) in
  let s2 := state_of (resume_after_close b c allowed s1) in
  live_contexts s1 = 0 ∧ live_urls s1 = 0 ∧
  awaiting s1 = Some (AwaitClose b c) ∧
  exclusive_graph (S c) b s2.
Proof.
  intros Hrun Haw s1 s2. subst s1 s2.
  destruct (unmount_run s) as [_ Hst]. rewrite Hst.
  destruct (Inv_reachable acts s l Hrun) as [ph Hsh].
  pose proof (shaped_awaiting ph _ s Hsh) as Hph. rewrite Haw in Hph. subst ph.
  destruct (shaped_unmounted_counts _ _ s Hsh) as [Hc Hu].
  destruct (unmounted_untouched s) as (_ & _ & _ & _ & Ha).
  split; [exact Hc|]. split; [exact Hu|]. split; [congruence|].
  rewrite resume_after_close_run. unfold state_of. cbn [fst snd].
  destruct (shaped_closing_refs _ c b s Hsh) as (H1 & _ & _ & _ & H5 & H6).
  destruct (resume_after_unmount_view b c allowed s H1 H5 H6) as [Hv Hw].
  pose proof (shaped_resume b _ c s allowed Hsh) as Hres. cbv zeta in Hres, Hv, Hw.
  rewrite <- Hv, <- Hw in Hres.
  destruct Hsh as (old & bj & Hcl & Hlen & _ & _).
  assert (Hcl' : accepted acts = (old ++ [bj]) ++ [b])
    by (rewrite Hcl, <- app_assoc; reflexivity).
  assert (Hl : length (old ++ [bj]) = S c) by (rewrite length_app; cbn; lia).
  rewrite <- Hl. apply (shaped_exclusive (accepted acts)); [|exact Hcl'].
  rewrite Hl. exact Hres.
Qed.

Lemma unmount_does_not_stop_suspended_call_witness :
  ∃ s l, run [Submit (Present clipA) true; PlaySettled true;
              Submit (Present clipB) true] init = Some (s, l) ∧
         live_contexts (state_of (resume_after_close clipB 0 true (state_of (unmount s)))) = 1.
Proof.
  eexists _, _.
  assert (Hrun : run [Submit (Present clipA) true; PlaySettled true;
                      Submit (Present clipB) true] init = Some (_, _))
    by (vm_compute; reflexivity).
  split; [exact Hrun|].
  exact (proj1 (proj2 (proj2 (proj2
    (unmount_does_not_stop_suspended_call _ _ _ clipB 0 true Hrun eq_refl))))).
Defined.

(** * The toggle in reachable states *)

Lemma shaped_element ph clips s :
  shaped ph clips (graph_view s) (awaiting s) →
  (audioRef s = None ↔ clips = []) ∧
  ∀ e, audioRef s = Some e →
    ∃ o, currentAudioUrlRef s = Some e ∧
         urls (browser s) !! e = Some o ∧ url_live o = true.
Proof.
  intros Hsh. destruct ph as [|j|j b]; cbn [shaped] in Hsh.
  - destruct Hsh as (Hcl & _ & Hv).
    pose proof (f_equal v_element Hv) as H1.
    cbv beta iota delta [v_element graph_view] in H1.
    split; [split; auto|]. intros e He. congruence.
  - destruct Hsh as (old & bj & Hcl & Hlen & _ & Hv).
    pose proof (f_equal v_element Hv) as H1. pose proof (f_equal v_url Hv) as H2.
    pose proof (f_equal v_urls Hv) as H3.
    cbv beta iota delta [v_element v_url v_urls graph_view] in H1, H2, H3.
    split.
    + split; [congruence|]. intros ->. destruct old; discriminate Hcl.
    + intros e He. assert (e = j) as -> by congruence.
      exists (mkURL bj true). split; [exact H2|]. split; [|reflexivity].
      rewrite H3. apply lookup_at_end. rewrite length_fmap. exact Hlen.
  - destruct Hsh as (old & bj & Hcl & Hlen & _ & Hv).
    pose proof (f_equal v_element Hv) as H1. pose proof (f_equal v_url Hv) as H2.
    pose proof (f_equal v_urls Hv) as H3.
    cbv beta iota delta [v_element v_url v_urls graph_view] in H1, H2, H3.
    split.
    + split; [congruence|]. intros ->. destruct old; discriminate Hcl.
    + intros e He. assert (e = j) as -> by congruence.
      exists (mkURL bj true). split; [exact H2|]. split; [|reflexivity].
      rewrite H3. apply lookup_at_end. rewrite length_fmap. exact Hlen.
Qed.

(** X9.  In every reachable state the element, once there is one (that is,
    once a clip has been accepted), has the retained clip URL as its source,
    and that URL is live.  So [togglePlayback] never takes its fallback
    branch that rebinds the source from [currentAudioUrlRef]: it does
    nothing before the first clip, requests pause while playing, and
    otherwise rewinds the element and requests play. *)
Theorem toggle_never_rebinds (acts : list Action) (s : St) (l : list Effect)
    (allowed : bool) :
  run acts init = Some (s, l) →
  (audioRef s = None ↔ accepted acts = []) ∧
  (∀ e, audioRef s = Some e →
     ∃ u o, bound_source s e = Some u ∧ currentAudioUrlRef s = Some u ∧
            urls (browser s) !! u = Some o ∧ url_live o = true) ∧
  togglePlayback allowed s =
    match audioRef s with
    | None => (Ret tt, s, [])
    | Some e =>
        if isPlaying s
        then (Ret tt, on_element e pause_element s, [EPause e])
        else (Ret tt, play_requested e allowed (on_element e rewind s),
              ESetCurrentTime e 0 :: play_request e allowed)
    end.
Proof.
  intros Hrun. destruct (Inv_reachable acts s l Hrun) as [ph Hsh].
  destruct (shaped_element ph _ s Hsh) as [Hnone Hsome].
  pose proof (shaped_bound ph _ s Hsh) as Hb.
  split; [exact Hnone|]. split.
  - intros e He. destruct (Hsome e He) as (o & Hu & Ho & Hl).
    exists e, o. auto.
  - destruct (audioRef s) as [e|] eqn:He.
    + destruct (isPlaying s) eqn:Hp.
      * apply toggle_while_playing; assumption.
      * apply (toggle_bound_source allowed s e e); auto.
    + apply toggle_without_element. exact He.
Qed.

Lemma toggle_never_rebinds_witness :
  ∃ s l, run playing_trace init = Some (s, l) ∧
         togglePlayback true s = (Ret tt, on_element 0 pause_element s, [EPause 0]).
Proof.
  eexists _, _.
  assert (Hrun : run playing_trace init = Some (_, _)) by (vm_compute; reflexivity).
  split; [exact Hrun|].
  exact (proj2 (proj2 (toggle_never_rebinds playing_trace _ _ true Hrun))).
Defined.

(** * A published snapshot is refreshed *)

Lemma refreshing_same s s' : loop_view s' = loop_view s → refreshing s → refreshing s'.
Proof.
  unfold loop_view, refreshing, loop_armed. intros H. injection H as -> -> -> ->. auto.
Qed.

Lemma refreshing_no_data s : audioData s = None → refreshing s.
Proof. intros H _ [x Hx]. congruence. Qed.

Lemma refreshing_no_analyser s : analyserRef s = None → refreshing s.
Proof. intros H [x Hx]. congruence. Qed.

Lemma refreshing_sampled a data s : refreshing (sampled a data s).
Proof.
  intros _ _. exists (next_frame (browser s)).
  destruct s as [ad ip cr ar sr fr er ur [els cs ans srcs us fs nf arrs] aw].
  unfold_code. split; [reflexivity|]. apply elem_of_app. right. apply list_elem_of_singleton.
  reflexivity.
Qed.

Lemma analyserRef_detached s : analyserRef (detached s) = None.
Proof.
  destruct s as [ad ip cr ar sr fr er ur w aw]. destruct er, sr, ar; reflexivity.
Qed.

Lemma audioData_rebuilt b allowed closed s :
  audioData (rebuilt b allowed (released closed s)) = None.
Proof.
  destruct s as [ad ip cr ar sr fr er ur w aw].
  destruct closed, fr as [[|h]|], ur, allowed; reflexivity.
Qed.

Lemma lv_toggle allowed s :
  loop_view (state_of (togglePlayback allowed s)) = loop_view s.
Proof.
  destruct (audioRef s) as [e|] eqn:He;
    [|rewrite (toggle_without_element allowed s He); reflexivity].
  destruct (isPlaying s) eqn:Hp;
    [rewrite (toggle_while_playing allowed s e He Hp); reflexivity|].
  destruct (bound_source s e) as [u|] eqn:Hb.
  { rewrite (toggle_bound_source allowed s e u He Hp Hb). destruct allowed; reflexivity. }
  destruct (currentAudioUrlRef s) as [u|] eqn:Hu.
  - rewrite (toggle_retained_url allowed s e u He Hp Hb Hu). destruct allowed; reflexivity.
  - rewrite (toggle_nothing_to_play allowed s e He Hp Hb Hu). reflexivity.
Qed.

Lemma lv_pop_event e s sig b s1 :
  pop_event e s = Some (sig, b, s1) → loop_view s1 = loop_view s.
Proof.
  unfold pop_event. destruct (elements (browser s) !! e) as [el|]; [|discriminate].
  destruct (el_events el); [discriminate|]. intros H. injection H as _ _ <-. reflexivity.
Qed.

Lemma refreshing_step a s s' l' :
  refreshing s → step a s = Some (s', l') → live_frame a = [] → refreshing s'.
Proof.
  intros Hr Hstep Hlive.
  destruct a as [p allowed|allowed|ok|allowed|e data|e pos|h data];
    cbn [step live_frame] in *.
  - destruct (awaiting s); [discriminate|]. injection Hstep as <- <-.
    unfold exec. cbn [fst].
    destruct p as [|b]; [exact Hr|].
    destruct (String.eqb (blob_type b) octet_stream) eqn:Hty; [discriminate Hlive|].
    apply String.eqb_neq in Hty. rewrite (handleAudioResponse_clip_run b allowed s Hty).
    destruct (audioContextRef s) as [c|];
      [destruct (contexts (browser s) !! c) as [[]|]|]; unfold state_of; cbn [fst snd].
    1-4: apply refreshing_no_analyser, analyserRef_detached.
    apply refreshing_no_data, audioData_rebuilt.
  - destruct (awaiting s) as [[b c|e]|]; try discriminate.
    injection Hstep as <- <-. unfold exec. cbn [fst].
    rewrite resume_after_close_run. unfold state_of. cbn [fst snd].
    apply refreshing_no_data, audioData_rebuilt.
  - destruct (awaiting s) as [[b c|e]|]; try discriminate.
    injection Hstep as <- <-. destruct ok.
    + apply (refreshing_same s); [reflexivity|exact Hr].
    + apply refreshing_no_data. reflexivity.
  - injection Hstep as <- <-. unfold exec. cbn [fst].
    apply (refreshing_same s); [apply lv_toggle|exact Hr].
  - destruct (pop_event e s) as [[[sig b] s1]|] eqn:Hpop; [|discriminate].
    pose proof (lv_pop_event e s sig b s1 Hpop) as Hlv.
    destruct b; injection Hstep as <- <-;
      [|apply (refreshing_same s); [exact Hlv|exact Hr]].
    unfold exec. cbn [fst]. destruct sig; cbn [listener].
    + rewrite on_play_run. destruct (analyserRef s1) as [an|] eqn:Han.
      * apply refreshing_sampled.
      * apply refreshing_no_analyser. exact Han.
    + rewrite on_pause_run. apply refreshing_no_data. reflexivity.
    + rewrite on_ended_run. apply refreshing_no_data. reflexivity.
  - unfold end_playback in Hstep.
    destruct (elements (browser s) !! e) as [el|]; [|discriminate].
    destruct (el_paused el); [discriminate|].
    injection Hstep as <- <-. apply (refreshing_same s); [reflexivity|exact Hr].
  - destruct (bool_decide (h ∈ frames (browser s))); [|discriminate].
    injection Hstep as <- <-. unfold exec. cbn [fst].
    rewrite animate_run.
    destruct (analyserRef _) as [an|] eqn:Han.
    + apply refreshing_sampled.
    + apply refreshing_no_analyser. exact Han.
Qed.

Lemma refreshing_run acts : ∀ s s' l,
  refreshing s → run acts s = Some (s', l) → live_frames acts = [] → refreshing s'.
Proof.
  induction acts as [|a acts IH]; intros s s' l Hr Hrun Hlive; cbn in Hrun.
  - injection Hrun as <- <-. exact Hr.
  - destruct (step a s) as [[s1 l1]|] eqn:Hstep; [|discriminate].
    destruct (run acts s1) as [[s2 l2]|] eqn:Hrest; [|discriminate].
    injection Hrun as <- <-. cbn [live_frames] in Hlive.
    apply app_eq_nil in Hlive as [Ha Hlive].
    apply (IH s1 s2 l2); [|exact Hrest|exact Hlive].
    apply (refreshing_step a s s1 l1); assumption.
Qed.

(** X10.  In a run without live frames, a snapshot that is published while
    an analyser is attached always has the sampling loop behind it: the
    recorded animation frame is pending, so the snapshot will be replaced.
    In particular, whenever the visualizer is active ([isActive], the prop
    computed in the render) and the analyser is attached, a frame is
    pending and the browser can run it. *)
Theorem active_snapshot_is_refreshed (acts : list Action) (s : St) (l : list Effect) :
  run acts init = Some (s, l) → live_frames acts = [] →
  refreshing s ∧
  (isActive s = true → is_Some (analyserRef s) →
   ∃ h, animationFrameRef s = Some h ∧ h ∈ frames (browser s) ∧
        ∀ data, is_Some (step (Tick h data) s)).
Proof.
  intros Hrun Hlive.
  assert (Hinit : refreshing init) by (apply refreshing_no_data; reflexivity).
  pose proof (refreshing_run acts init s l Hinit Hrun Hlive) as Hr.
  split; [exact Hr|]. intros Hact Han.
  assert (Had : is_Some (audioData s)).
  { unfold isActive in Hact. destruct (audioData s); [eauto|discriminate]. }
  destruct (Hr Han Had) as (h & Hh & Hin).
  exists h. split; [exact Hh|]. split; [exact Hin|].
  intros data. cbn [step]. rewrite bool_decide_eq_true_2 by exact Hin. eauto.
Qed.

Lemma active_snapshot_is_refreshed_witness :
  ∃ s l, run playing_trace init = Some (s, l) ∧ isActive s = true ∧
         animationFrameRef s = Some 1 ∧ 1 ∈ frames (browser s).
Proof.
  eexists _, _.
  assert (Hrun : run playing_trace init = Some (_, _)) by (vm_compute; reflexivity).
  split; [exact Hrun|]. split; [reflexivity|].
  destruct (proj2 (active_snapshot_is_refreshed playing_trace _ _ Hrun eq_refl)
              eq_refl (ex_intro _ 0 eq_refl)) as (h & Hh & Hin & _).
  assert (h = 1) as -> by (cbn in Hh; congruence).
  split; [exact Hh|exact Hin].
Defined.

(** * No resource is given up twice *)

Lemma disposals_app l1 l2 : disposals (l1 ++ l2) = disposals l1 ++ disposals l2.
Proof. apply List.filter_app. Qed.

Lemma elem_of_disposals e l : e ∈ disposals l → e ∈ l ∧ is_disposal e = true.
Proof.
  unfold disposals. rewrite !list_elem_of_In, List.filter_In. auto.
Qed.

Lemma toggle_disposals allowed s : disposals (log_of (togglePlayback allowed s)) = [].
Proof.
  destruct (audioRef s) as [e|] eqn:He;
    [|rewrite (toggle_without_element allowed s He); reflexivity].
  destruct (isPlaying s) eqn:Hp;
    [rewrite (toggle_while_playing allowed s e He Hp); reflexivity|].
  destruct (bound_source s e) as [u|] eqn:Hb.
  { rewrite (toggle_bound_source allowed s e u He Hp Hb). destruct allowed; reflexivity. }
  destruct (currentAudioUrlRef s) as [u|] eqn:Hu.
  - rewrite (toggle_retained_url allowed s e u He Hp Hb Hu). destruct allowed; reflexivity.
  - rewrite (toggle_nothing_to_play allowed s e He Hp Hb Hu). reflexivity.
Qed.

Lemma disposals_cancel_log s tail :
  disposals tail = [] → disposals (cancel_log s ++ tail) = cancel_log s.
Proof.
  intros Ht. rewrite disposals_app, Ht, app_nil_r. unfold cancel_log.
  destruct (animationFrameRef s) as [[|h]|]; reflexivity.
Qed.

Lemma cancel_log_congr s1 s : frame_view s1 = frame_view s → cancel_log s1 = cancel_log s.
Proof. unfold frame_view, cancel_log. intros H. injection H as _ _ ->. reflexivity. Qed.

(** What a task disposes of, by the phase in which it runs. *)
Lemma step_disposals ph clips a s s' l' :
  shaped ph clips (graph_view s) (awaiting s) →
  step a s = Some (s', l') →
  ∃ ph', shaped ph' (clips ++ accepted_clip a) (graph_view s') (awaiting s') ∧
    ((ph' = ph ∧ disposals l' = []) ∨
     ((ph' = ph ∨ ph = PIdle ∧ ph' = PLoaded 0) ∧
      disposals l' = cancel_log s ∧ frame_view s' = frame_view (cancelled s)) ∨
     (∃ j b, ph = PLoaded j ∧ ph' = PClosing j b ∧
        disposals l' = [EDisconnectSource j; EDisconnectAnalyser j; ECloseRequested j]) ∨
     (∃ j b, ph = PClosing j b ∧ ph' = PLoaded (S j) ∧
        disposals l' = cancel_log s ++ [ERevokeURL j] ∧
        frame_view s' = frame_view (cancelled s))).
Proof.
  intros Hsh Hstep.
  pose proof (shaped_awaiting ph clips s Hsh) as Hph.
  destruct a as [p allowed|allowed|ok|allowed|e data|e pos|h data];
    cbn [accepted_clip].
  - (* Submit *)
    destruct (awaiting s) as [w|] eqn:Haw; [cbn in Hstep; rewrite Haw in Hstep; discriminate|].
    rewrite <- Haw in Hsh.
    destruct p as [|b].
    { cbn in Hstep. rewrite Haw in Hstep. injection Hstep as <- <-.
      rewrite app_nil_r. exists ph. split; [exact Hsh|]. left. auto. }
    destruct (String.eqb (blob_type b) octet_stream) eqn:Hty.
    { apply String.eqb_eq in Hty. cbn [step] in Hstep. rewrite Haw in Hstep.
      injection Hstep as <- <-. unfold exec. cbn [fst snd].
      rewrite app_nil_r, (live_frame_run b allowed s Hty). exists ph.
      split; [exact Hsh|]. left. auto. }
    apply String.eqb_neq in Hty.
    destruct Hph as [-> | [j ->]].
    + assert (Hcl : clips = []) by apply Hsh. subst clips.
      rewrite (first_call_order s b allowed Hsh Hty) in Hstep.
      injection Hstep as <- <-. exists (PLoaded 0).
      split; [apply shaped_first_clip; exact Hsh|].
      right. left. split; [auto|]. split.
      * apply disposals_cancel_log. destruct allowed; reflexivity.
      * rewrite fv_rebuilt, fv_released. apply fv_cancelled_congr, fv_detached.
    + destruct (next_call_suspends s j clips b allowed Hsh Haw Hty) as (Hst & _).
      rewrite Hst in Hstep. injection Hstep as <- <-.
      exists (PClosing j b). split; [apply shaped_suspend; exact Hsh|].
      right. right. left. exists j, b. auto.
  - (* CloseResolved *)
    destruct (awaiting s) as [[b c|e]|] eqn:Haw;
      try (cbn in Hstep; rewrite Haw in Hstep; discriminate).
    rewrite <- Haw in Hsh. subst ph.
    destruct (resumed_call_order s c b clips allowed Hsh) as (Hst & _).
    rewrite Hst in Hstep. injection Hstep as <- <-.
    rewrite app_nil_r. exists (PLoaded (S c)).
    split; [apply shaped_resume; exact Hsh|].
    right. right. right. exists c, b. split; [reflexivity|]. split; [reflexivity|]. split.
    + change (disposals (cancel_log s ++ [ESetAudioData None; ESetIsPlaying false] ++
                [ERevokeURL c] ++ build_effects (S c) ++ start_log (S c) allowed)
              = cancel_log s ++ [ERevokeURL c]).
      rewrite disposals_app. f_equal.
      * rewrite <- (app_nil_r (cancel_log s)) at 1. apply disposals_cancel_log. reflexivity.
      * destruct allowed; reflexivity.
    + rewrite fv_rebuilt, fv_released. apply fv_cancelled_congr. reflexivity.
  - (* PlaySettled *)
    cbn [step] in Hstep.
    destruct (awaiting s) as [[b c|e]|] eqn:Haw; try discriminate.
    injection Hstep as <- <-. rewrite app_nil_r. exists ph.
    rewrite <- Haw in Hsh. split.
    + apply (shaped_play_settled ph clips s _ e); auto; destruct ok; reflexivity.
    + left. split; [reflexivity|]. destruct ok; reflexivity.
  - (* Toggle *)
    cbn [step] in Hstep.
    injection Hstep as <- <-. rewrite app_nil_r. exists ph. unfold exec. cbn [fst snd].
    destruct (view_toggle allowed s) as [Hv Ha].
    { intros e He. rewrite (shaped_bound ph clips s Hsh e He). eauto. }
    split; [apply (shaped_same ph clips s); assumption|].
    left. split; [reflexivity|apply toggle_disposals].
  - (* Deliver *)
    cbn [step] in Hstep.
    destruct (pop_event e s) as [[[sig b] s1]|] eqn:Hpop; [|discriminate].
    destruct (view_pop_event e s sig b s1 Hpop) as [Hv1 Ha1].
    pose proof (fv_pop_event e s sig b s1 Hpop) as Hfv.
    rewrite app_nil_r. exists ph.
    destruct b; injection Hstep as <- <-.
    + destruct (view_listener sig data s1) as [Hv2 Ha2]. unfold exec. cbn [fst snd].
      split; [apply (shaped_same ph clips s); congruence|].
      destruct sig; cbn [listener].
      * left. split; [reflexivity|]. rewrite on_play_run.
        destruct (analyserRef s1); reflexivity.
      * right. left. split; [auto|]. rewrite on_pause_run.
        unfold log_of, state_of. cbn [fst snd]. split.
        -- rewrite <- (cancel_log_congr s1 s Hfv).
           change (disposals ([ESetIsPlaying false] ++ cancel_log s1 ++ [ESetAudioData None])
                   = cancel_log s1).
           rewrite disposals_app. apply disposals_cancel_log. reflexivity.
        -- rewrite <- (fv_cancelled_congr (set_isPlaying false s1) s Hfv).
           unfold cancelled. cbn [animationFrameRef set_isPlaying].
           destruct (animationFrameRef s1) as [[|h]|]; reflexivity.
      * right. left. split; [auto|]. rewrite on_ended_run.
        unfold log_of, state_of. cbn [fst snd]. split.
        -- rewrite <- (cancel_log_congr s1 s Hfv).
           apply disposals_cancel_log. reflexivity.
        -- rewrite <- (fv_cancelled_congr s1 s Hfv).
           unfold cancelled. destruct (animationFrameRef s1) as [[|h]|]; reflexivity.
    + split; [apply (shaped_same ph clips s); assumption|]. left. auto.
  - (* PlaybackEnds *)
    cbn [step] in Hstep.
    destruct (end_playback e pos s) as [s1|] eqn:Hend; [|discriminate].
    injection Hstep as <- <-. rewrite app_nil_r. exists ph.
    destruct (view_end_playback e pos s s1 Hend) as [Hv1 Ha1].
    split; [apply (shaped_same ph clips s); assumption|]. left. auto.
  - (* Tick *)
    cbn [step] in Hstep.
    destruct (bool_decide (h ∈ frames (browser s))); [|discriminate].
    injection Hstep as <- <-. rewrite app_nil_r. exists ph. unfold exec. cbn [fst snd].
    destruct (view_animate data
      (upd_browser (upd_frames (filter (λ h', h' ≠ h))) s)) as [Hv Ha].
    split; [apply (shaped_same ph clips s); [rewrite Hv|rewrite Ha|]; auto|].
    left. split; [reflexivity|]. rewrite animate_run.
    destruct (analyserRef _); reflexivity.
Qed.

Lemma cancelled_frame_view s :
  next_frame (browser (cancelled s)) = next_frame (browser s) ∧
  (animationFrameRef (cancelled s) = None ∨
   animationFrameRef (cancelled s) = animationFrameRef s).
Proof.
  unfold cancelled. destruct (animationFrameRef s) as [[|h]|] eqn:E; auto.
Qed.

Lemma spent_frame_kept a s s' l' h :
  step a s = Some (s', l') →
  h < next_frame (browser s) ∧ animationFrameRef s ≠ Some h →
  h < next_frame (browser s') ∧ animationFrameRef s' ≠ Some h.
Proof.
  intros Hstep [Hlt Hne].
  destruct (cancelled_frame_view s) as [Hcn Hcr].
  destruct (step_frames a s s' l' Hstep) as [H | [H | [(h' & _ & [H | H]) | [_ H]]]];
    unfold frame_view, ticked, requested in H; cbn [fst snd] in H;
    injection H as _ Hn Hr; rewrite Hn, Hr.
  - auto.
  - rewrite Hcn. split; [exact Hlt|]. destruct Hcr as [-> | ->]; [discriminate|exact Hne].
  - auto.
  - split; [lia|]. intros E. injection E as E. lia.
  - split; [lia|]. intros E. injection E as E. lia.
Qed.

Lemma spent_mono ph ph' a s s' l' e :
  step a s = Some (s', l') →
  torn_down ph ≤ torn_down ph' → revoked_urls ph ≤ revoked_urls ph' →
  spent ph s e → spent ph' s' e.
Proof.
  intros Hstep Ht Hu. destruct e; cbn [spent]; try lia; try auto.
  apply (spent_frame_kept a s s' l' _ Hstep).
Qed.

Lemma cancel_log_spent ph s s' :
  fresh_view (frame_view s) → frame_view s' = frame_view (cancelled s) →
  Forall (spent ph s') (cancel_log s) ∧
  ∀ e, e ∈ cancel_log s → ∀ ph0, ¬ spent ph0 s e.
Proof.
  intros (_ & _ & _ & Hf) Hfv. unfold cancel_log.
  destruct (animationFrameRef s) as [[|h]|] eqn:E;
    try (split; [constructor|intros e He; apply elem_of_nil in He; destruct He]).
  specialize (Hf (S h)). cbn in Hf. specialize (Hf E).
  unfold frame_view, cancelled in Hfv. rewrite E in Hfv. cbn in Hfv.
  injection Hfv as _ Hn Hr. split.
  - constructor; [|constructor]. cbn [spent]. rewrite Hn, Hr. split; [lia|discriminate].
  - intros e He ph0. apply list_elem_of_singleton in He. subst e. cbn [spent].
    intros [_ Hne]. apply Hne. exact E.
Qed.

(** The invariant: every disposal so far is spent, and none occurs twice. *)
Lemma once_step ph clips a s s' l l' :
  shaped ph clips (graph_view s) (awaiting s) →
  fresh_view (frame_view s) →
  Forall (spent ph s) (disposals l) → NoDup (disposals l) →
  step a s = Some (s', l') →
  ∃ ph', shaped ph' (clips ++ accepted_clip a) (graph_view s') (awaiting s') ∧
         Forall (spent ph' s') (disposals (l ++ l')) ∧
         NoDup (disposals (l ++ l')).
Proof.
  intros Hsh Hfresh Hsp Hnd Hstep.
  destruct (step_disposals ph clips a s s' l' Hsh Hstep) as (ph' & Hsh' & Hcase).
  exists ph'. split; [exact Hsh'|]. rewrite disposals_app.
  assert (Hold : torn_down ph ≤ torn_down ph' → revoked_urls ph ≤ revoked_urls ph' →
                 Forall (spent ph' s') (disposals l)).
  { intros Ht Hu. apply (list.Forall_impl _ _ _ Hsp).
    intros e. apply (spent_mono ph ph' a s s' l' e Hstep Ht Hu). }
  rewrite list.Forall_forall in Hsp.
  destruct Hcase as [[-> Hd] | [(Hph & Hd & Hfv) | [(j & b & -> & -> & Hd)
                    | (j & b & -> & -> & Hd & Hfv)]]]; rewrite Hd.
  - rewrite app_nil_r. split; [apply Hold; lia|exact Hnd].
  - destruct (cancel_log_spent ph' s s' Hfresh Hfv) as [Hnew Hnot].
    split.
    + apply Forall_app. split; [|exact Hnew].
      apply Hold; destruct Hph as [-> | [-> ->]]; cbn; lia.
    + apply list.NoDup_app. split; [exact Hnd|]. split.
      * intros e He Hin. apply (Hnot e Hin ph). apply Hsp. exact He.
      * unfold cancel_log. destruct (animationFrameRef s) as [[|h]|];
          first [apply NoDup_nil_2 | apply NoDup_singleton].
  - split.
    + apply Forall_app. split; [apply Hold; cbn; lia|].
      repeat constructor.
    + apply list.NoDup_app. split; [exact Hnd|]. split.
      * intros e He Hin. specialize (Hsp e He).
        repeat (apply elem_of_cons in Hin as [-> | Hin]; [cbn in Hsp; lia|]).
        apply elem_of_nil in Hin. destruct Hin.
      * repeat (apply NoDup_cons_2; [rewrite ?elem_of_cons, elem_of_nil; intuition discriminate|]).
        apply NoDup_nil_2.
  - destruct (cancel_log_spent (PLoaded (S j)) s s' Hfresh Hfv) as [Hnew Hnot].
    split.
    + apply Forall_app. split; [apply Hold; cbn; lia|].
      apply Forall_app. split; [exact Hnew|]. repeat constructor.
    + apply list.NoDup_app. split; [exact Hnd|]. split.
      * intros e He Hin. specialize (Hsp e He).
        apply elem_of_app in Hin as [Hin | Hin].
        -- apply (Hnot e Hin _ Hsp).
        -- apply list_elem_of_singleton in Hin. subst e. cbn in Hsp. lia.
      * unfold cancel_log. destruct (animationFrameRef s) as [[|h]|]; cbn [app].
        1,3: apply NoDup_singleton.
        apply NoDup_cons_2; [|apply NoDup_singleton].
        intros Hin. apply list_elem_of_singleton in Hin. discriminate Hin.
Qed.

Lemma once_run acts : ∀ ph clips s s' l0 l,
  shaped ph clips (graph_view s) (awaiting s) →
  fresh_view (frame_view s) →
  Forall (spent ph s) (disposals l0) → NoDup (disposals l0) →
  run acts s = Some (s', l) →
  ∃ ph', Forall (spent ph' s') (disposals (l0 ++ l)) ∧ NoDup (disposals (l0 ++ l)).
Proof.
  induction acts as [|a acts IH]; intros ph clips s s' l0 l Hsh Hf Hsp Hnd Hrun;
    cbn in Hrun.
  - injection Hrun as <- <-. rewrite app_nil_r. eauto.
  - destruct (step a s) as [[s1 l1]|] eqn:Hstep; [|discriminate].
    destruct (run acts s1) as [[s2 l2]|] eqn:Hrest; [|discriminate].
    injection Hrun as <- <-.
    destruct (once_step ph clips a s s1 l0 l1 Hsh Hf Hsp Hnd Hstep)
      as (ph1 & Hsh1 & Hsp1 & Hnd1).
    rewrite app_assoc.
    apply (IH ph1 _ s1 s2 (l0 ++ l1) l2 Hsh1); try assumption.
    apply (fresh_step a s s1 l1); assumption.
Qed.

Lemma run_app acts1 : ∀ acts2 s,
  run (acts1 ++ acts2) s =
  match run acts1 s with
  | Some (s1, l1) =>
      match run acts2 s1 with
      | Some (s2, l2) => Some (s2, l1 ++ l2)
      | None => None
      end
  | None => None
  end.
Proof.
  induction acts1 as [|a acts1 IH]; intros acts2 s; cbn [app run].
  - destruct (run acts2 s) as [[s2 l2]|]; reflexivity.
  - destruct (step a s) as [[s1 l1]|]; [|reflexivity].
    rewrite IH. destruct (run acts1 s1) as [[s2 l2]|]; [|reflexivity].
    destruct (run acts2 s2) as [[s3 l3]|]; [|reflexivity].
    rewrite app_assoc. reflexivity.
Qed.

Lemma call_returns ph clips s b allowed :
  shaped ph clips (graph_view s) (awaiting s) → awaiting s = None →
  res_of (handleAudioResponse (Present b) allowed s) = Ret tt.
Proof.
  intros Hsh Haw.
  pose proof (shaped_awaiting ph _ s Hsh) as Hph. rewrite Haw in Hph.
  destruct (String.eqb (blob_type b) octet_stream) eqn:Hty.
  - apply String.eqb_eq in Hty. rewrite (live_frame_run b allowed s Hty). reflexivity.
  - apply String.eqb_neq in Hty. rewrite (handleAudioResponse_clip_run b allowed s Hty).
    destruct Hph as [-> | [j ->]].
    + assert (Hc : audioContextRef s = None).
      { destruct Hsh as (_ & _ & Hv). apply (f_equal v_context) in Hv. exact Hv. }
      rewrite Hc. reflexivity.
    + destruct (shaped_loaded_context _ j s Hsh) as [Hc Hrun].
      rewrite Hc, Hrun. reflexivity.
Qed.

(** X11.  Along every run of the event loop in which the calls of
    [handleAudioResponse] follow one another, each starting only when no
    earlier call is suspended (this is what [step] admits), no resource is
    given up twice: no source node or analyser is disconnected twice, no
    context is asked to close twice, no animation frame is cancelled twice
    and no object URL is revoked twice.  In such a run every call with a
    Blob returns normally, so no [close()] request of the run is a rejected
    one that the log would not show.  (A call that overlaps one suspended
    on [close()] does call [close()] a second time; such a call is not part
    of these runs.) *)
Theorem no_resource_disposed_twice (acts : list Action) (s : St) (l : list Effect) :
  run acts init = Some (s, l) →
  NoDup (disposals l) ∧
  ∀ pre b allowed post s0 l0,
    acts = pre ++ Submit (Present b) allowed :: post →
    run pre init = Some (s0, l0) →
    awaiting s0 = None ∧
    res_of (handleAudioResponse (Present b) allowed s0) = Ret tt.
Proof.
  intros Hrun. split.
  - destruct (once_run acts PIdle [] init s [] l) as (ph & _ & Hnd).
    + repeat split.
    + exact fresh_init.
    + constructor.
    + apply NoDup_nil_2.
    + exact Hrun.
    + exact Hnd.
  - intros pre b allowed post s0 l0 -> Hpre.
    rewrite run_app, Hpre in Hrun. cbn [run step] in Hrun.
    destruct (awaiting s0) eqn:Haw; [discriminate Hrun|].
    split; [reflexivity|].
    destruct (Inv_reachable pre s0 l0 Hpre) as [ph Hsh].
    apply (call_returns ph _ s0 b allowed Hsh Haw).
Qed.

Lemma no_resource_disposed_twice_witness :
  ∃ s l, run two_clip_trace init = Some (s, l) ∧ NoDup (disposals l) ∧
         disposals l ≠ [].
Proof.
  eexists _, _.
  assert (Hrun : run two_clip_trace init = Some (_, _)) by (vm_compute; reflexivity).
  split; [exact Hrun|].
  split; [exact (proj1 (no_resource_disposed_twice two_clip_trace _ _ Hrun))|].
  vm_compute. discriminate.
Defined.

(** * A play() promise rejected late *)

Lemma resume_after_play_rejected s :
  resume_after_play false s =
  (Ret tt, set_audioData None (set_isPlaying false (set_awaiting None s)),
   [EConsoleError; ESetIsPlaying false; ESetAudioData None]).
Proof.
  destruct s as [ad ip cr ar sr fr er ur w aw]. reflexivity.
Qed.

Lemma shaped_loaded_refs clips j s :
  shaped (PLoaded j) clips (graph_view s) (awaiting s) →
  analyserRef s = Some j ∧ audioRef s = Some j.
Proof.
  intros (old & bj & _ & _ & _ & Hv).
  pose proof (f_equal v_analyser Hv) as H2. pose proof (f_equal v_element Hv) as H4.
  cbv beta iota delta [v_analyser v_element graph_view] in H2, H4. auto.
Qed.

Lemma isPlaying_sampled a data s : isPlaying (sampled a data s) = isPlaying s.
Proof. destruct s as [ad ip cr ar sr fr er ur w aw]. reflexivity. Qed.

(** X12.  When the [play()] promise of a new clip is rejected only after
    the call has suspended on it (a clip that cannot be decoded, say), the
    [catch] block resets the status and the snapshot and nothing else: the
    graph stays as built, so [togglePlayback] rewinds the element and
    requests play, and the animation frames stay as they are.  A frame that
    was pending (the "play" event had been delivered) still runs
    afterwards and publishes a snapshot while the status is not playing. *)
Theorem late_rejection_cancels_nothing (acts : list Action) (s : St) (l : list Effect)
    (e : ElemId) :
  run acts init = Some (s, l) →
  awaiting s = Some (AwaitPlay e) →
  let s1 := set_audioData None (set_isPlaying false (set_awaiting None s)) in
  step (PlaySettled false) s =
    Some (s1, [EConsoleError; ESetIsPlaying false; ESetAudioData None]) ∧
  graph_resources s1 = graph_resources s ∧
  frame_view s1 = frame_view s ∧
  (∀ allowed,
     togglePlayback allowed s1 =
       (Ret tt, play_requested e allowed (on_element e rewind s1),
        ESetCurrentTime e 0 :: play_request e allowed)) ∧
  (∀ h data, h ∈ frames (browser s) →
     ∃ s2 l2, step (Tick h data) s1 = Some (s2, l2) ∧
              is_Some (snapshot s2) ∧ isPlaying s2 = false).
Proof.
  intros Hrun Haw s1.
  destruct (Inv_reachable acts s l Hrun) as [ph Hsh].
  pose proof (shaped_awaiting ph _ s Hsh) as Hph. rewrite Haw in Hph. subst ph.
  destruct (shaped_loaded_refs _ e s Hsh) as [Han Hel].
  pose proof (shaped_bound _ _ s Hsh e Hel) as Hb.
  split; [|split; [|split; [|split]]].
  - cbn [step]. rewrite Haw. unfold exec. rewrite resume_after_play_rejected. reflexivity.
  - reflexivity.
  - reflexivity.
  - intros allowed. apply (toggle_bound_source allowed s1 e e).
    + exact Hel.
    + reflexivity.
    + exact Hb.
  - intros h data Hin. cbn [step].
    rewrite bool_decide_eq_true_2 by exact Hin.
    eexists _, _. split; [reflexivity|].
    unfold exec. cbn [fst]. rewrite animate_run.
    change (analyserRef (upd_browser (upd_frames (filter (λ h', h' ≠ h))) s1))
      with (analyserRef s).
    rewrite Han. unfold state_of. cbn [fst snd].
    split; [apply sampled_snapshot|]. rewrite isPlaying_sampled. reflexivity.
Qed.

Lemma late_rejection_cancels_nothing_witness :
  ∃ s l, run [Submit (Present clipA) true; Deliver 0 [Byte.x07]] init = Some (s, l) ∧
    ∃ s2 l2,
      step (Tick 1 [Byte.x08])
        (set_audioData None (set_isPlaying false (set_awaiting None s))) = Some (s2, l2) ∧
      is_Some (snapshot s2) ∧ isPlaying s2 = false.
Proof.
  eexists _, _.
  assert (Hrun : run [Submit (Present clipA) true; Deliver 0 [Byte.x07]] init = Some (_, _))
    by (vm_compute; reflexivity).
  split; [exact Hrun|].
  refine (proj2 (proj2 (proj2 (proj2
    (late_rejection_cancels_nothing _ _ _ 0 Hrun eq_refl)))) 1 [Byte.x08] _).
  apply list_elem_of_singleton. reflexivity.
Defined.
